(** * Enhanced PyMario: the simulation core of [mariomod.py]

    A shallow embedding of the game's entity records, per-frame update
    rules, collision resolver, session loop and platform-count prompt,
    followed by the properties stated about them.

    Conventions of the embedding.
    - Python integers are [Z]; [//] and [%] are [Z.div] and [Z.modulo]
      (both floor, as in Python for either sign of the divisor), and a zero
      divisor is an error written out explicitly.
    - [velocity_y], [GRAVITY] and the value of [random.random()] are Python
      floats; they are idealised as exact rationals ([Q], kept reduced).
    - A [pygame.Rect] holds integer coordinates; storing a float in one
      truncates it toward zero ([py_trunc]).
    - [pygame.time.get_ticks()] and the event queue are inputs of a frame;
      the [random] module is a stream of raw draws threaded through the
      calls that consume it.
    - A sprite group is the list of its members in insertion order;
      [all_sprites] is the union of the player and the four groups, so
      [all_sprites.update()] updates each of them and killing a sprite
      removes it from its group. *)

From Stdlib Require Import String Ascii ZArith QArith Bool List Lia.
Import ListNotations.
Local Open Scope Z_scope.

(** ** Constants *)

Definition WIDTH : Z := 1100.
Definition HEIGHT : Z := 720.
Definition GRAVITY : Q := 8 # 10.
Definition JUMP_POWER : Q := (-16) # 1.
Definition PLAYER_SPEED : Z := 8.
Definition COIN_SPAWN_RATE : Z := 3000.
Definition MAX_ENEMIES : Z := 10.
Definition MAX_PLATFORMS : Z := 15.
Definition HEALTH_POWERUP_CHANCE : Q := 2 # 10.
Definition ENEMY_SPAWN_SCORE_INTERVAL : Z := 500.

(** ** Numbers *)

(** Conversion of a float to the integer stored in a rectangle: the
    fractional part is dropped, toward zero. *)
Definition py_trunc (q : Q) : Z := Z.quot (Qnum q) (Zpos (Qden q)).

Definition Qgtb (a b : Q) : bool :=
  match Qcompare a b with Gt => true | _ => false end.

Definition Qltb (a b : Q) : bool :=
  match Qcompare a b with Lt => true | _ => false end.

(** ** Rectangles *)

Module Rect.

Record t := mk { x : Z; y : Z; w : Z; h : Z }.

Definition left (r : t) : Z := x r.
Definition top (r : t) : Z := y r.
Definition right (r : t) : Z := x r + w r.
Definition bottom (r : t) : Z := y r + h r.

Definition set_x (v : Z) (r : t) : t := mk v (y r) (w r) (h r).
Definition set_y (v : Z) (r : t) : t := mk (x r) v (w r) (h r).
Definition set_left (v : Z) (r : t) : t := set_x v r.
Definition set_right (v : Z) (r : t) : t := set_x (v - w r) r.
Definition set_bottom (v : Z) (r : t) : t := set_y (v - h r) r.

(** [rect.center = (cx, cy)]; a surface's [get_rect()] is at the origin. *)
Definition set_center (cx cy : Z) (r : t) : t :=
  mk (cx - w r / 2) (cy - h r / 2) (w r) (h r).

Definition of_size (width height : Z) : t := mk 0 0 width height.

(** [a.colliderect(b)]: rectangles of zero area collide with nothing;
    otherwise the open interiors must meet on both axes. *)
Definition colliderect (a b : t) : bool :=
  if (w a =? 0) || (h a =? 0) || (w b =? 0) || (h b =? 0) then false
  else
    (Z.min (x a) (x a + w a) <? Z.max (x b) (x b + w b)) &&
    (Z.min (y a) (y a + h a) <? Z.max (y b) (y b + h b)) &&
    (Z.max (x a) (x a + w a) >? Z.min (x b) (x b + w b)) &&
    (Z.max (y a) (y a + h a) >? Z.min (y b) (y b + h b)).

End Rect.

(** [pygame.sprite.spritecollide(sprite, group, dokill)]: the members of
    the group whose rectangle collides with the sprite's, in group order;
    with [dokill] the hit members leave the group, which keeps the rest. *)
Definition spritecollide {A : Type} (rect_of : A -> Rect.t)
    (sprite : Rect.t) (group : list A) : list A :=
  filter (fun s => Rect.colliderect sprite (rect_of s)) group.

Definition survivors {A : Type} (rect_of : A -> Rect.t)
    (sprite : Rect.t) (group : list A) : list A :=
  filter (fun s => negb (Rect.colliderect sprite (rect_of s))) group.

(** ** The player *)

Inductive Surface := IdleFrame (k : Z) | RunFrame (k : Z) | JumpFrame.

Module Player.

(** [image] is the surface shown and whether it was flipped. *)
Record t := mk {
  current_frame : Z;
  last_update : Z;
  image : Surface * bool;
  rect : Rect.t;
  velocity_x : Z;
  velocity_y : Q;
  on_ground : bool;
  facing_right : bool;
  health : Z;
  score : Z;
  jumping : bool
}.

Definition frame_rate : Z := 100.
Definition len_run : Z := 4.
Definition len_idle : Z := 2.

Definition init : t :=
  mk 0 0 (IdleFrame 0, false)
     (Rect.set_center (WIDTH / 4) (HEIGHT / 2) (Rect.of_size 32 64))
     0 0 false true 100 0 false.

Definition with_rect (r : Rect.t) (p : t) : t :=
  mk (current_frame p) (last_update p) (image p) r (velocity_x p)
     (velocity_y p) (on_ground p) (facing_right p) (health p) (score p)
     (jumping p).

Definition with_velocity_x (v : Z) (p : t) : t :=
  mk (current_frame p) (last_update p) (image p) (rect p) v
     (velocity_y p) (on_ground p) (facing_right p) (health p) (score p)
     (jumping p).

Definition with_velocity_y (v : Q) (p : t) : t :=
  mk (current_frame p) (last_update p) (image p) (rect p) (velocity_x p)
     v (on_ground p) (facing_right p) (health p) (score p) (jumping p).

Definition with_on_ground (b : bool) (p : t) : t :=
  mk (current_frame p) (last_update p) (image p) (rect p) (velocity_x p)
     (velocity_y p) b (facing_right p) (health p) (score p) (jumping p).

Definition with_facing_right (b : bool) (p : t) : t :=
  mk (current_frame p) (last_update p) (image p) (rect p) (velocity_x p)
     (velocity_y p) (on_ground p) b (health p) (score p) (jumping p).

Definition with_health (v : Z) (p : t) : t :=
  mk (current_frame p) (last_update p) (image p) (rect p) (velocity_x p)
     (velocity_y p) (on_ground p) (facing_right p) v (score p) (jumping p).

Definition with_score (v : Z) (p : t) : t :=
  mk (current_frame p) (last_update p) (image p) (rect p) (velocity_x p)
     (velocity_y p) (on_ground p) (facing_right p) (health p) v (jumping p).

Definition with_jumping (b : bool) (p : t) : t :=
  mk (current_frame p) (last_update p) (image p) (rect p) (velocity_x p)
     (velocity_y p) (on_ground p) (facing_right p) (health p) (score p) b.

Definition with_animation (cf lu : Z) (img : Surface * bool) (p : t) : t :=
  mk cf lu img (rect p) (velocity_x p) (velocity_y p) (on_ground p)
     (facing_right p) (health p) (score p) (jumping p).

(** The animation block of [update]: every [frame_rate] milliseconds the
    image follows the movement state, flipped when facing left. *)
Definition animate (now : Z) (p : t) : t :=
  if now - last_update p >? frame_rate then
    let flipped := negb (facing_right p) in
    if negb (on_ground p) then
      with_animation (current_frame p) now (JumpFrame, flipped) p
    else if Z.abs (velocity_x p) >? 0 then
      let cf := (current_frame p + 1) mod len_run in
      with_animation cf now (RunFrame cf, flipped) p
    else
      let cf := (current_frame p + 1) mod len_idle in
      with_animation cf now (IdleFrame cf, flipped) p
  else p.

(** The three boundary tests at the end of [update], in source order. *)
Definition clamp_left (p : t) : t :=
  if Rect.left (rect p) <? 0 then with_rect (Rect.set_left 0 (rect p)) p
  else p.

Definition clamp_right (p : t) : t :=
  if Rect.right (rect p) >? WIDTH
  then with_rect (Rect.set_right WIDTH (rect p)) p
  else p.

Definition clamp_bottom (p : t) : t :=
  if Rect.bottom (rect p) >? HEIGHT then
    with_jumping false
      (with_velocity_y 0
         (with_on_ground true
            (with_rect (Rect.set_bottom HEIGHT (rect p)) p)))
  else p.

(** [rect.x += velocity_x; rect.y += velocity_y]. *)
Definition move (p : t) : t :=
  let r := rect p in
  let r := Rect.set_x (Rect.x r + velocity_x p) r in
  let r := Rect.set_y (py_trunc (inject_Z (Rect.y r) + velocity_y p)) r in
  with_rect r p.

Definition update (now : Z) (p : t) : t :=
  let p := with_velocity_y (Qred (velocity_y p + GRAVITY)) p in
  let p := animate now p in
  let p := move p in
  clamp_bottom (clamp_right (clamp_left p)).

Definition jump (p : t) : t :=
  if on_ground p && negb (jumping p) then
    with_jumping true (with_on_ground false (with_velocity_y JUMP_POWER p))
  else p.

End Player.


(** ** Enemies, platforms, coins and powerups *)

Module Enemy.

Record t := mk { rect : Rect.t; direction : Z; speed : Z }.

Definition init (x y : Z) : t :=
  mk (Rect.set_y y (Rect.set_x x (Rect.of_size 32 32))) 1 2.

Definition update (e : t) : t :=
  let r := Rect.set_x (Rect.x (rect e) + speed e * direction e) (rect e) in
  if (Rect.right r >? WIDTH) || (Rect.left r <? 0)
  then mk r (direction e * -1) (speed e)
  else mk r (direction e) (speed e).

End Enemy.

Module Platform.

(** [start_x], [direction] and [speed] exist only on a moving platform;
    on a fixed one they are never read and are kept at 0 here. *)
Record t := mk {
  rect : Rect.t;
  moving : bool;
  start_x : Z;
  direction : Z;
  speed : Z
}.

Definition init (x y width height : Z) (moving : bool) : t :=
  let r := Rect.set_y y (Rect.set_x x (Rect.of_size width height)) in
  if moving then mk r true x 1 2 else mk r false 0 0 0.

Definition update (p : t) : t :=
  if moving p then
    let r := Rect.set_x (Rect.x (rect p) + speed p * direction p) (rect p) in
    if Z.abs (Rect.x r - start_x p) >? 100
    then mk r true (start_x p) (direction p * -1) (speed p)
    else mk r true (start_x p) (direction p) (speed p)
  else p.

End Platform.

Module Coin.

Record t := mk { rect : Rect.t; value : Z }.

Definition init (x y : Z) : t :=
  mk (Rect.set_center x y (Rect.of_size 16 16)) 10.

End Coin.

Module HealthPowerup.

Record t := mk { rect : Rect.t; bounce : Q }.

Definition init (x y : Z) : t :=
  mk (Rect.set_center x y (Rect.of_size 20 20)) 0.

(** [math.sin] is a parameter of the embedding. *)
Definition update (math_sin : Q -> Q) (p : t) : t :=
  let b := Qred (bounce p + (1 # 10)) in
  let dy := py_trunc (2 * math_sin b) in
  mk (Rect.set_y (Rect.y (rect p) + dy) (rect p)) b.

End HealthPowerup.

(** ** The [random] module

    The generator is a stream of raw draws and the number already used;
    each call consumes one draw and maps it into the range of the call. *)

Module Random.

Record t := mk { draws : nat -> Z; used : nat }.

Definition raw (g : t) : Z * t :=
  (draws g (used g), mk (draws g) (S (used g))).

(** [random.randint(a, b)], for [a <= b]: an integer of [[a, b]]. *)
Definition randint (a b : Z) (g : t) : Z * t :=
  let (v, g') := raw g in (a + v mod (b - a + 1), g').

(** [random.choice([True, False])]. *)
Definition choice_bool (g : t) : bool * t :=
  let (v, g') := raw g in (v mod 2 =? 0, g').

(** [random.random()]: a multiple of 2^-53 in [[0, 1)]. *)
Definition random (g : t) : Q * t :=
  let (v, g') := raw g in
  (Qmake (v mod 9007199254740992) 9007199254740992, g').

End Random.

(** Computations that consume random draws. *)
Definition Rand (A : Type) : Type := Random.t -> A * Random.t.

Definition ret {A : Type} (a : A) : Rand A := fun g => (a, g).

Definition bind {A B : Type} (m : Rand A) (k : A -> Rand B) : Rand B :=
  fun g => let (a, g') := m g in k a g'.

Notation "x <- m ;; k" := (bind m (fun x => k))
  (at level 61, m at next level, right associativity).

(** A [for] loop over [l] whose body updates [s] and may draw. *)
Fixpoint for_each {A S : Type} (body : A -> S -> Rand S) (l : list A) (s : S)
    : Rand S :=
  match l with
  | [] => ret s
  | a :: l' => s' <- body a s ;; for_each body l' s'
  end.

(** [range(n)]. *)
Definition range (n : Z) : list Z := map Z.of_nat (seq 0 (Z.to_nat n)).

(** ** Input of a frame *)

Inductive Key := K_SPACE | K_r | K_LEFT | K_RIGHT | K_other.

Inductive Event := QUIT | KEYDOWN (key : Key) | OTHER.

(** What one iteration of the main loop reads from outside: the event
    queue, the held arrow keys, and the clock as seen by [spawn_coin] and
    by [Player.update]. *)
Record Frame := mkFrame {
  events : list Event;
  held_left : bool;
  held_right : bool;
  ticks_spawn : Z;
  ticks_player : Z
}.

(** ** The session *)

Module Game.

Record t := mk {
  running : bool;
  game_over : bool;
  last_coin_spawn : Z;
  num_platforms : Z;
  player : Player.t;
  platforms : list Platform.t;
  coins : list Coin.t;
  enemies : list Enemy.t;
  powerups : list HealthPowerup.t
}.

Definition with_running (b : bool) (g : t) : t :=
  mk b (game_over g) (last_coin_spawn g) (num_platforms g) (player g)
     (platforms g) (coins g) (enemies g) (powerups g).

Definition with_game_over (b : bool) (g : t) : t :=
  mk (running g) b (last_coin_spawn g) (num_platforms g) (player g)
     (platforms g) (coins g) (enemies g) (powerups g).

Definition with_last_coin_spawn (v : Z) (g : t) : t :=
  mk (running g) (game_over g) v (num_platforms g) (player g)
     (platforms g) (coins g) (enemies g) (powerups g).

Definition with_player (p : Player.t) (g : t) : t :=
  mk (running g) (game_over g) (last_coin_spawn g) (num_platforms g) p
     (platforms g) (coins g) (enemies g) (powerups g).

Definition with_platforms (l : list Platform.t) (g : t) : t :=
  mk (running g) (game_over g) (last_coin_spawn g) (num_platforms g)
     (player g) l (coins g) (enemies g) (powerups g).

Definition with_coins (l : list Coin.t) (g : t) : t :=
  mk (running g) (game_over g) (last_coin_spawn g) (num_platforms g)
     (player g) (platforms g) l (enemies g) (powerups g).

Definition with_enemies (l : list Enemy.t) (g : t) : t :=
  mk (running g) (game_over g) (last_coin_spawn g) (num_platforms g)
     (player g) (platforms g) (coins g) l (powerups g).

Definition with_powerups (l : list HealthPowerup.t) (g : t) : t :=
  mk (running g) (game_over g) (last_coin_spawn g) (num_platforms g)
     (player g) (platforms g) (coins g) (enemies g) l.

(** *** Setup *)

(** One turn of the platform loop of [setup_level]; platform 0 is never
    moving and draws no choice. *)
Definition make_platform (platform_height platform_spacing : Z) (i : Z)
    (acc : list Platform.t) : Rand (list Platform.t) :=
  width <- Random.randint 80 150 ;;
  x <- Random.randint 0 (WIDTH - width) ;;
  let y := platform_height - i * platform_spacing in
  moving <- (if i >? 0 then Random.choice_bool else ret false) ;;
  ret (acc ++ [Platform.init x y width 20 moving]).

Definition make_enemy (_ : Z) (acc : list Enemy.t) : Rand (list Enemy.t) :=
  x <- Random.randint 0 WIDTH ;;
  ret (acc ++ [Enemy.init x (HEIGHT - 80)]).

(** [setup_level]; the division by [num_platforms] raises
    [ZeroDivisionError] when it is 0, which is [None] here. *)
Definition setup_level (g : t) : Random.t -> option (t * Random.t) :=
  fun rng =>
  let g := with_player Player.init g in
  let platform_height := HEIGHT - 40 in
  if num_platforms g =? 0 then None
  else
    let platform_spacing := (HEIGHT - 200) / num_platforms g in
    let (ps, rng) :=
      for_each (make_platform platform_height platform_spacing)
               (range (num_platforms g)) (platforms g) rng in
    let (es, rng) := for_each make_enemy (range 3) (enemies g) rng in
    Some (with_enemies es (with_platforms ps g), rng).

(** [Game.__init__(num_platforms)]: fresh flags and empty groups, then
    [setup_level]. *)
Definition init (num_platforms : Z) : Random.t -> option (t * Random.t) :=
  setup_level
    (mk true false 0 (Z.min num_platforms MAX_PLATFORMS) Player.init
        [] [] [] []).

(** *** Spawning *)

Definition spawn_coin (now : Z) (g : t) : Rand t :=
  if now - last_coin_spawn g >? COIN_SPAWN_RATE then
    let g := with_last_coin_spawn now g in
    x <- Random.randint 0 WIDTH ;;
    y <- Random.randint (HEIGHT / 2) (HEIGHT - 100) ;;
    let g := with_coins (coins g ++ [Coin.init x y]) g in
    chance <- Random.random ;;
    if Qltb chance HEALTH_POWERUP_CHANCE
    then ret (with_powerups (powerups g ++ [HealthPowerup.init (x + 40) y]) g)
    else ret g
  else ret g.

(** *** Collisions

    [handle_collisions] is four passes in sequence, each a function here. *)

(** The scan for the hit with the greatest bottom edge, starting from
    [hits[0]] and replacing the candidate only on a strictly greater one. *)
Definition lowest_of (hits : list Platform.t) (first : Platform.t)
    : Platform.t :=
  fold_left
    (fun lowest hit =>
       if Rect.bottom (Platform.rect hit) >? Rect.bottom (Platform.rect lowest)
       then hit else lowest)
    hits first.

Definition land_on (lowest : Platform.t) (p : Player.t) : Player.t :=
  Player.with_jumping false
    (Player.with_on_ground true
       (Player.with_velocity_y 0
          (Player.with_rect
             (Rect.set_bottom (Rect.top (Platform.rect lowest))
                              (Player.rect p)) p))).

Definition collide_platforms (g : t) : t :=
  let hits :=
    spritecollide Platform.rect (Player.rect (player g)) (platforms g) in
  match hits with
  | [] => g
  | first :: _ =>
      let lowest := lowest_of hits first in
      if Qgtb (Player.velocity_y (player g)) 0
      then with_player (land_on lowest (player g)) g
      else g
  end.

(** The body of the loop over [coin_hits]. *)
Definition collect_coin (coin : Coin.t) (g : t) : Rand t :=
  let p := player g in
  let g :=
    with_player (Player.with_score (Player.score p + Coin.value coin) p) g in
  let score := Player.score (player g) in
  if score / ENEMY_SPAWN_SCORE_INTERVAL
     >? (score - Coin.value coin) / ENEMY_SPAWN_SCORE_INTERVAL
  then
    if Z.of_nat (length (enemies g)) <? MAX_ENEMIES then
      x <- Random.randint 0 WIDTH ;;
      ret (with_enemies (enemies g ++ [Enemy.init x (HEIGHT - 80)]) g)
    else ret g
  else ret g.

Definition collide_coins (g : t) : Rand t :=
  let me := Player.rect (player g) in
  let coin_hits := spritecollide Coin.rect me (coins g) in
  let g := with_coins (survivors Coin.rect me (coins g)) g in
  for_each collect_coin coin_hits g.

(** The body of the loop over [powerup_hits]. *)
Definition heal (g : t) : t :=
  let p := player g in
  with_player (Player.with_health (Z.min 100 (Player.health p + 30)) p) g.

Definition collide_powerups (g : t) : t :=
  let me := Player.rect (player g) in
  let powerup_hits := spritecollide HealthPowerup.rect me (powerups g) in
  let g := with_powerups (survivors HealthPowerup.rect me (powerups g)) g in
  fold_left (fun g _ => heal g) powerup_hits g.

Definition collide_enemies (g : t) : t :=
  let enemy_hits :=
    spritecollide Enemy.rect (Player.rect (player g)) (enemies g) in
  match enemy_hits with
  | [] => g
  | _ :: _ =>
      let p := player g in
      let g := with_player (Player.with_health (Player.health p - 10) p) g in
      if Player.health (player g) <=? 0 then with_game_over true g else g
  end.

Definition handle_collisions (g : t) : Rand t :=
  let g := collide_platforms g in
  g <- collide_coins g ;;
  let g := collide_powerups g in
  ret (collide_enemies g).

(** *** The frame loop *)

Section Loop.

Variable math_sin : Q -> Q.

(** [all_sprites.update()]: every sprite's own [update]; a coin has none. *)
Definition update_sprites (now : Z) (g : t) : t :=
  mk (running g) (game_over g) (last_coin_spawn g) (num_platforms g)
     (Player.update now (player g))
     (map Platform.update (platforms g))
     (coins g)
     (map Enemy.update (enemies g))
     (map (HealthPowerup.update math_sin) (powerups g)).

Definition update (f : Frame) (g : t) : Rand t :=
  g <- spawn_coin (ticks_spawn f) g ;;
  let g := update_sprites (ticks_player f) g in
  handle_collisions g.

(** The body of the loop over the event queue. *)
Definition handle_event (ev : Event) (g : t)
    : Random.t -> option (t * Random.t) :=
  fun rng =>
  match ev with
  | QUIT => Some (with_running false g, rng)
  | KEYDOWN K_SPACE => Some (with_player (Player.jump (player g)) g, rng)
  | KEYDOWN K_r =>
      if game_over g then init (num_platforms g) rng else Some (g, rng)
  | _ => Some (g, rng)
  end.

Fixpoint handle_queue (evs : list Event) (g : t) (rng : Random.t)
    : option (t * Random.t) :=
  match evs with
  | [] => Some (g, rng)
  | ev :: evs' =>
      match handle_event ev g rng with
      | Some (g', rng') => handle_queue evs' g' rng'
      | None => None
      end
  end.

(** The continuous left/right input read after the queue. *)
Definition handle_keys (f : Frame) (g : t) : t :=
  let p := Player.with_velocity_x 0 (player g) in
  let p :=
    if held_left f
    then Player.with_facing_right false
           (Player.with_velocity_x (- PLAYER_SPEED) p)
    else p in
  let p :=
    if held_right f
    then Player.with_facing_right true
           (Player.with_velocity_x PLAYER_SPEED p)
    else p in
  with_player p g.

Definition handle_events (f : Frame) (g : t) (rng : Random.t)
    : option (t * Random.t) :=
  match handle_queue (events f) g rng with
  | Some (g', rng') => Some (handle_keys f g', rng')
  | None => None
  end.

(** One iteration of the loop of [run]; drawing reads the state only. *)
Definition run_frame (f : Frame) (g : t) (rng : Random.t)
    : option (t * Random.t) :=
  match handle_events f g rng with
  | Some (g', rng') =>
      if negb (game_over g') then Some (update f g' rng')
      else Some (g', rng')
  | None => None
  end.

(** [run] on the frames supplied: it stops when [running] is cleared. *)
Fixpoint run (frames : list Frame) (g : t) (rng : Random.t)
    : option (t * Random.t) :=
  match frames with
  | [] => Some (g, rng)
  | f :: frames' =>
      if running g then
        match run_frame f g rng with
        | Some (g', rng') => run frames' g' rng'
        | None => None
        end
      else Some (g, rng)
  end.

(** The states a session passes through between frames: the one built by
    the constructor, and the one left by an iteration of the loop. *)
Inductive reachable : t -> Random.t -> Prop :=
| reach_init : forall n rng0 g rng,
    init n rng0 = Some (g, rng) -> reachable g rng
| reach_frame : forall f g rng g' rng',
    reachable g rng -> running g = true ->
    run_frame f g rng = Some (g', rng') -> reachable g' rng'.

End Loop.

End Game.

(** ** The platform-count prompt *)

(** [int(text)] for a string of Latin-1 characters: surrounding white
    space is dropped, one sign is allowed, and the rest must be decimal
    digits, with single underscores allowed between digits. *)
Module PyInt.

Definition is_space (c : ascii) : bool :=
  let n := Z.of_N (N_of_ascii c) in
  ((9 <=? n) && (n <=? 13)) || ((28 <=? n) && (n <=? 32))
  || (n =? 133) || (n =? 160).

Definition digit_of (c : ascii) : option Z :=
  let n := Z.of_N (N_of_ascii c) in
  if (48 <=? n) && (n <=? 57) then Some (n - 48) else None.

Fixpoint lstrip (l : list ascii) : list ascii :=
  match l with
  | c :: l' => if is_space c then lstrip l' else l
  | [] => []
  end.

Definition strip (l : list ascii) : list ascii :=
  rev (lstrip (rev (lstrip l))).

Fixpoint digits (acc : Z) (after_digit : bool) (l : list ascii) : option Z :=
  match l with
  | [] => if after_digit then Some acc else None
  | c :: l' =>
      if Ascii.eqb c "_"%char then
        if after_digit then digits acc false l' else None
      else
        match digit_of c with
        | Some d => digits (10 * acc + d) true l'
        | None => None
        end
  end.

(** [None] stands for [ValueError]. *)
Definition int (text : string) : option Z :=
  match strip (list_ascii_of_string text) with
  | c :: l =>
      if Ascii.eqb c "-"%char then option_map Z.opp (digits 0 false l)
      else if Ascii.eqb c "+"%char then digits 0 false l
      else digits 0 false (c :: l)
  | [] => None
  end.

End PyInt.

Inductive PromptKey := K_RETURN | K_BACKSPACE | K_text (unicode : string).

(** [in_box] is the outcome of [input_box.collidepoint(event.pos)]. *)
Inductive PromptEvent :=
| P_QUIT
| P_MOUSEBUTTONDOWN (in_box : bool)
| P_KEYDOWN (key : PromptKey)
| P_OTHER.

Inductive Outcome (A : Type) :=
| Returned (a : A)   (* the function returns [a] *)
| SystemExit         (* [sys.exit()] was called *)
| Waiting.           (* the loop is still polling for events *)
Arguments Returned {A} a.
Arguments SystemExit {A}.
Arguments Waiting {A}.

Module Prompt.

Record t := mk { active : bool; text : string; done : bool }.

Definition init : t := mk false EmptyString false.

(** [text[:-1]]. *)
Definition drop_last (s : string) : string :=
  string_of_list_ascii (removelast (list_ascii_of_string s)).

(** The body of the event loop; [None] is the exit on [QUIT]. *)
Definition on_event (ev : PromptEvent) (s : t) : option t :=
  match ev with
  | P_QUIT => None
  | P_MOUSEBUTTONDOWN in_box =>
      Some (mk (if in_box then negb (active s) else false) (text s) (done s))
  | P_KEYDOWN key =>
      if active s then
        match key with
        | K_RETURN => Some (mk (active s) (text s) true)
        | K_BACKSPACE => Some (mk (active s) (drop_last (text s)) (done s))
        | K_text unicode =>
            Some (mk (active s) (String.append (text s) unicode) (done s))
        end
      else Some s
  | P_OTHER => Some s
  end.

Fixpoint on_queue (evs : list PromptEvent) (s : t) : option t :=
  match evs with
  | [] => Some s
  | ev :: evs' =>
      match on_event ev s with
      | Some s' => on_queue evs' s'
      | None => None
      end
  end.

(** [while not done]: one event queue per iteration; the result is the
    text entered when the loop ends. *)
Fixpoint loop (queues : list (list PromptEvent)) (s : t) : Outcome string :=
  if done s then Returned (text s)
  else
    match queues with
    | [] => Waiting
    | q :: queues' =>
        match on_queue q s with
        | Some s' => loop queues' s'
        | None => SystemExit
        end
    end.

End Prompt.

(** The [try] block that ends [get_platform_count]. *)
Definition platform_count_of_text (text : string) : Z :=
  match PyInt.int text with
  | Some n => let num := Z.min n MAX_PLATFORMS in Z.max 1 num
  | None => 5
  end.

Definition get_platform_count (queues : list (list PromptEvent)) : Outcome Z :=
  match Prompt.loop queues Prompt.init with
  | Returned text => Returned (platform_count_of_text text)
  | SystemExit => SystemExit
  | Waiting => Waiting
  end.

(** The program: prompt, construct the session, run it. *)
Definition main (math_sin : Q -> Q) (queues : list (list PromptEvent))
    (frames : list Frame) (rng : Random.t)
    : Outcome (option (Game.t * Random.t)) :=
  match get_platform_count queues with
  | Returned num_platforms =>
      Returned
        match Game.init num_platforms rng with
        | Some (game, rng') => Game.run math_sin frames game rng'
        | None => None
        end
  | SystemExit => SystemExit
  | Waiting => Waiting
  end.

(** ** The session invariant

    What holds of a session between any two statements of the loop:
    health is a multiple of 10 within [0, 100] and positive while playing,
    the score is non-negative, every coin is worth 10, and the platform
    count is a non-zero number of at most [MAX_PLATFORMS]. *)
Record session_inv (g : Game.t) : Prop := {
  inv_health_range : 0 <= Player.health (Game.player g) <= 100;
  inv_health_tens : Player.health (Game.player g) mod 10 = 0;
  inv_alive :
    Game.game_over g = false -> 0 < Player.health (Game.player g);
  inv_score : 0 <= Player.score (Game.player g);
  inv_coins : Forall (fun c => Coin.value c = 10) (Game.coins g);
  inv_num_platforms :
    Game.num_platforms g <> 0 /\ Game.num_platforms g <= MAX_PLATFORMS
}.

(** A frame restarts the session when R is pressed while in GameOver. *)
Definition restarts (f : Frame) (g : Game.t) : Prop :=
  Game.game_over g = true /\ In (KEYDOWN K_r) (events f).

(** The fields of a session that input handling, short of a restart,
    never writes. *)
Definition same_simulation (g g' : Game.t) : Prop :=
  Player.health (Game.player g') = Player.health (Game.player g) /\
  Player.score (Game.player g') = Player.score (Game.player g) /\
  Player.rect (Game.player g') = Player.rect (Game.player g) /\
  Game.game_over g' = Game.game_over g /\
  Game.last_coin_spawn g' = Game.last_coin_spawn g /\
  Game.num_platforms g' = Game.num_platforms g /\
  Game.platforms g' = Game.platforms g /\
  Game.coins g' = Game.coins g /\
  Game.enemies g' = Game.enemies g /\
  Game.powerups g' = Game.powerups g.

(** A step that may add to the score and to the coins but leaves health,
    the session flags and the platform count alone. *)
Definition scores_only (g g' : Game.t) : Prop :=
  Player.health (Game.player g') = Player.health (Game.player g) /\
  Player.score (Game.player g) <= Player.score (Game.player g') /\
  Game.game_over g' = Game.game_over g /\
  Game.num_platforms g' = Game.num_platforms g /\
  (Forall (fun c => Coin.value c = 10) (Game.coins g) ->
   Forall (fun c => Coin.value c = 10) (Game.coins g')).

(** Sum of the values of the coins of a list. *)
Definition list_sum_values (l : list Coin.t) : Z :=
  fold_right Z.add 0 (map Coin.value l).

(** Where [setup_level] puts platform [i] for a given vertical spacing:
    on the row of its index, 20 high and 80 to 150 wide, horizontally
    inside the screen, fixed if it is platform 0, and, if moving, starting
    its swing to the right from where it is. *)
Definition platform_laid_out (spacing : Z) (i : Z) (p : Platform.t) : Prop :=
  Rect.y (Platform.rect p) = HEIGHT - 40 - i * spacing /\
  Rect.h (Platform.rect p) = 20 /\
  80 <= Rect.w (Platform.rect p) <= 150 /\
  0 <= Rect.left (Platform.rect p) /\
  Rect.right (Platform.rect p) <= WIDTH /\
  (i <= 0 -> Platform.moving p = false) /\
  (Platform.moving p = true ->
   Platform.start_x p = Rect.x (Platform.rect p) /\
   Platform.direction p = 1 /\ Platform.speed p = 2).

(** An enemy as the constructor and the score rule create it. *)
Definition enemy_created (e : Enemy.t) : Prop :=
  exists x, 0 <= x <= WIDTH /\ e = Enemy.init x (HEIGHT - 80).

(** ** The playfield invariant

    What holds of the entities of a session between frames. *)

(** An enemy on its row, of the constructor's size and speed, walking
    either way and at most one step beyond the positions it can be
    created at. *)
Definition enemy_patrols (e : Enemy.t) : Prop :=
  Rect.y (Enemy.rect e) = HEIGHT - 80 /\
  Rect.w (Enemy.rect e) = 32 /\ Rect.h (Enemy.rect e) = 32 /\
  Enemy.speed e = 2 /\
  (Enemy.direction e = 1 /\ -2 <= Rect.x (Enemy.rect e) <= WIDTH \/
   Enemy.direction e = -1 /\ 0 <= Rect.x (Enemy.rect e) <= WIDTH + 2).

(** A platform on one of the rows of the level, either fixed inside the
    screen or swinging around a start position inside the screen. *)
Definition platform_swings (p : Platform.t) : Prop :=
  Rect.h (Platform.rect p) = 20 /\
  80 <= Rect.w (Platform.rect p) <= 150 /\
  194 <= Rect.y (Platform.rect p) <= HEIGHT - 40 /\
  (Platform.moving p = false /\
   0 <= Rect.x (Platform.rect p) /\
   Rect.x (Platform.rect p) + Rect.w (Platform.rect p) <= WIDTH
   \/
   Platform.moving p = true /\ Platform.speed p = 2 /\
   0 <= Platform.start_x p /\
   Platform.start_x p + Rect.w (Platform.rect p) <= WIDTH /\
   (Platform.direction p = 1 /\
    -102 <= Rect.x (Platform.rect p) - Platform.start_x p <= 100 \/
    Platform.direction p = -1 /\
    -100 <= Rect.x (Platform.rect p) - Platform.start_x p <= 102)).

(** A coin where [spawn_coin] puts one. *)
Definition coin_placed (c : Coin.t) : Prop :=
  exists x y, 0 <= x <= WIDTH /\ HEIGHT / 2 <= y <= HEIGHT - 100 /\
              c = Coin.init x y.

Record field_inv (g : Game.t) : Prop := {
  fi_platform_count :
    length (Game.platforms g) = Z.to_nat (Game.num_platforms g);
  fi_platforms : Forall platform_swings (Game.platforms g);
  fi_enemy_count : (3 <= length (Game.enemies g) <= 10)%nat;
  fi_enemies : Forall enemy_patrols (Game.enemies g);
  fi_coins : Forall coin_placed (Game.coins g);
  fi_player :
    Rect.w (Player.rect (Game.player g)) = 32 /\
    Rect.h (Player.rect (Game.player g)) = 64 /\
    0 <= Rect.left (Player.rect (Game.player g)) /\
    Rect.right (Player.rect (Game.player g)) <= WIDTH /\
    Rect.bottom (Player.rect (Game.player g)) <= HEIGHT;
  fi_score : Player.score (Game.player g) mod 10 = 0;
  fi_dead : Game.game_over g = true -> Player.health (Game.player g) = 0
}.

(** ** The heads-up display

    [draw_hud] as the list of what it draws, in order: the score text,
    the red background of the health bar, and the green bar over it. *)
Inductive Colour := RED | GREEN | WHITE.

Inductive Drawing :=
| ScoreText (score : Z) (colour : Colour) (x y : Z)
| FilledRect (colour : Colour) (r : Rect.t).

Definition draw_hud (g : Game.t) : list Drawing :=
  [ScoreText (Player.score (Game.player g)) WHITE 10 10;
   FilledRect RED (Rect.mk 10 40 100 20);
   FilledRect GREEN (Rect.mk 10 40 (Player.health (Game.player g)) 20)].

(** ** Sample states and inputs *)

(** A player standing on the topmost platform of a 15-platform level
    ([y = 680 - 14 * 34 = 204]). *)
Definition standing_player : Player.t :=
  Player.with_on_ground true
    (Player.with_rect (Rect.mk 500 140 32 64) Player.init).


Definition sample_typing_20 : list (list PromptEvent) :=
  [[P_MOUSEBUTTONDOWN true; P_KEYDOWN (K_text "2"); P_KEYDOWN (K_text "9")];
   [P_KEYDOWN K_BACKSPACE; P_KEYDOWN (K_text "0"); P_KEYDOWN K_RETURN]].

(** A player falling at 4 pixels per frame into three overlapping
    platforms, two of which share the greatest bottom edge (380). *)
Definition sample_platforms : list Platform.t :=
  [Platform.init 90 350 100 20 false;
   Platform.init 60 360 100 20 false;
   Platform.init 120 360 100 20 true;
   Platform.init 500 500 100 20 false].

Definition sample_falling : Game.t :=
  Game.mk true false 0 4
    (Player.with_velocity_y (4 # 1)
       (Player.with_rect (Rect.mk 100 300 32 64) Player.init))
    sample_platforms [] [] [].

(** The same overlap while moving upward. *)
Definition sample_rising : Game.t :=
  Game.with_player
    (Player.with_velocity_y ((-4) # 1) (Game.player sample_falling))
    sample_falling.

Definition sample_rng : Random.t :=
  Random.mk (fun n => 200 + 37 * Z.of_nat n) 0.

(** A session with the given score and number of enemies, nothing else on
    the field. *)
Definition sample_scoring (score : Z) (n : Z) : Game.t :=
  Game.mk true false 0 5 (Player.with_score score Player.init) [] []
    (map (fun i => Enemy.init (100 * i) (HEIGHT - 80)) (range n)) [].

(** A player on the floor at full health with two of three enemies
    overlapping it. *)
Definition sample_two_enemies : Game.t :=
  Game.mk true false 0 5
    (Player.with_on_ground true
       (Player.with_rect (Rect.mk 300 656 32 64) Player.init))
    [] []
    [Enemy.init 290 640; Enemy.init 310 640; Enemy.init 800 640] [].

(** A session played to its end: the constructor draws 700 for the
    platforms and 180 for the enemies, and 40 frames pass without input;
    the player falls to the floor into the three enemies walking right. *)
Definition sample_stream : nat -> Z :=
  fun n => if (n <? 14)%nat then 700 else 180.

Definition idle_frame : Frame := mkFrame [] false false 0 0.

Definition sample_game_over : Game.t :=
  Game.mk true true 0 5
    (Player.mk 0 0 (IdleFrame 0, false) (Rect.mk 259 656 32 64)
               0 (4 # 5) true true 0 0 false)
    [Platform.mk (Rect.mk 700 680 141 20) false 0 0 0;
     Platform.mk (Rect.mk 768 576 141 20) true 700 1 2;
     Platform.mk (Rect.mk 768 472 141 20) true 700 1 2;
     Platform.mk (Rect.mk 768 368 141 20) true 700 1 2;
     Platform.mk (Rect.mk 768 264 141 20) true 700 1 2]
    []
    [Enemy.mk (Rect.mk 248 640 32 32) 1 2;
     Enemy.mk (Rect.mk 248 640 32 32) 1 2;
     Enemy.mk (Rect.mk 248 640 32 32) 1 2]
    [].

Definition sample_game_over_rng : Random.t := Random.mk sample_stream 17.

(** Frames read while in GameOver: the left arrow held; the space bar and
    then R pressed. *)
Definition held_left_frame : Frame := mkFrame [] true false 0 0.

Definition restart_frame : Frame :=
  mkFrame [KEYDOWN K_SPACE; KEYDOWN K_r] false false 0 0.

(** A stand-in for [math.sin] where a concrete one is needed. *)
Definition sample_sin : Q -> Q := fun _ => 0%Q.

(** A fresh player with two coins on it and one far away. *)
Definition sample_coins : Game.t :=
  Game.mk true false 0 5 Player.init []
    [Coin.init 275 360; Coin.init 600 400; Coin.init 280 340] [] [].

(** A 15-platform session in which every draw is 181: the platforms are
    fixed and stacked at [x = 181], under the player.  In 8 frames without
    input the player is carried to the topmost platform; then the space
    bar is pressed and 13 more frames pass. *)
Definition tower_rng : Random.t := Random.mk (fun _ => 181) 0.



(** A hurt player with one powerup on it and one far away. *)
Definition sample_powerups : Game.t :=
  Game.mk true false 0 5 (Player.with_health 70 Player.init) [] [] []
    [HealthPowerup.init 275 360; HealthPowerup.init 900 400].

(** A player running left out of the bottom-left corner of the screen. *)
Definition sample_corner_player : Player.t :=
  Player.with_velocity_x (- PLAYER_SPEED)
    (Player.with_rect (Rect.mk 2 700 32 64) Player.init).

(** * Properties *)

(** ** The jump rule *)

(** C10. [jump] is a no-op unless the player is on the ground and not
    already jumping; otherwise it sets [velocity_y] to the jump impulse
    -16, clears [on_ground], sets [jumping], and leaves every other field
    (position, horizontal velocity, health, score, facing, animation) as
    it was. *)
Theorem jump_frame_condition (p : Player.t) :
  (Player.on_ground p = false \/ Player.jumping p = true ->
   Player.jump p = p) /\
  (Player.on_ground p = true /\ Player.jumping p = false ->
   Player.jump p =
     Player.mk (Player.current_frame p) (Player.last_update p)
       (Player.image p) (Player.rect p) (Player.velocity_x p)
       ((-16) # 1) false (Player.facing_right p) (Player.health p)
       (Player.score p) true).
Proof.
  unfold Player.jump. split.
  - intros [H | H]; rewrite H.
    + reflexivity.
    + now rewrite andb_false_r.
  - intros [Hg Hj]. rewrite Hg, Hj. reflexivity.
Qed.

Lemma jump_frame_condition_witness :
  Player.jump Player.init = Player.init /\
  Player.velocity_y (Player.jump standing_player) = JUMP_POWER /\
  Player.rect (Player.jump standing_player) = Player.rect standing_player.
Proof.
  split.
  - apply (proj1 (jump_frame_condition Player.init)). left. reflexivity.
  - rewrite (proj2 (jump_frame_condition standing_player)).
    + split; reflexivity.
    + split; reflexivity.
Defined.

(** ** The platform-count prompt *)

Lemma platform_count_of_text_range (text : string) :
  1 <= platform_count_of_text text <= MAX_PLATFORMS.
Proof.
  unfold platform_count_of_text, MAX_PLATFORMS.
  destruct (PyInt.int text); lia.
Qed.



Example platform_count_examples :
  map platform_count_of_text
      ["7"; "0"; "-4"; "15"; "16"; " 3 "; "1_2"; ""; "five"; "4.5"; "1__2"]%string
  = [7; 1; 1; 15; 15; 3; 12; 5; 5; 5; 5].
Proof. reflexivity. Qed.

(** ** Landing on platforms *)

Section Lowest.

Let bottom (p : Platform.t) : Z := Rect.bottom (Platform.rect p).

(** The scan returns its starting candidate when nothing beats it, and
    otherwise the first element that is strictly below everything before
    it and at least as low as everything after it. *)
Lemma lowest_of_scan (l : list Platform.t) :
  forall c,
    (Game.lowest_of l c = c /\ Forall (fun h => bottom h <= bottom c) l) \/
    (exists before after,
       l = before ++ Game.lowest_of l c :: after /\
       bottom c < bottom (Game.lowest_of l c) /\
       Forall (fun h => bottom h < bottom (Game.lowest_of l c)) before /\
       Forall (fun h => bottom h <= bottom (Game.lowest_of l c)) after).
Proof.
  unfold Game.lowest_of.
  induction l as [| h l IH]; intros c; simpl.
  - left. split; [reflexivity | constructor].
  - fold (bottom h) (bottom c).
    destruct (bottom h >? bottom c) eqn:Hcmp.
    + apply Z.gtb_lt in Hcmp.
      right. destruct (IH h) as [[Heq Hall] | (b & a & Hl & Hlt & Hb & Ha)].
      * exists [], l. rewrite Heq. simpl. repeat split; auto.
      * exists (h :: b), a. simpl. rewrite <- Hl.
        split; [reflexivity |]. split; [lia |].
        split; [constructor; [lia | assumption] | assumption].
    + assert (Hle : bottom h <= bottom c).
      { destruct (Z.gtb_spec (bottom h) (bottom c)); [discriminate | lia]. }
      destruct (IH c) as [[Heq Hall] | (b & a & Hl & Hlt & Hb & Ha)].
      * left. split; [assumption | constructor; assumption].
      * right. exists (h :: b), a. simpl. rewrite <- Hl.
        split; [reflexivity |]. split; [lia |].
        split; [constructor; [lia | assumption] | assumption].
Qed.

(** Started from the head of the hit list, as the resolver does. *)
Lemma lowest_of_hits (first : Platform.t) (rest : list Platform.t) :
  exists before after,
    first :: rest = before ++ Game.lowest_of (first :: rest) first :: after /\
    Forall (fun h => bottom h < bottom (Game.lowest_of (first :: rest) first))
           before /\
    Forall (fun h => bottom h <= bottom (Game.lowest_of (first :: rest) first))
           after.
Proof.
  assert (Hstep : Game.lowest_of (first :: rest) first
                  = Game.lowest_of rest first).
  { unfold Game.lowest_of. simpl.
    destruct (Z.gtb_spec (Rect.bottom (Platform.rect first))
                         (Rect.bottom (Platform.rect first)));
      [lia | reflexivity]. }
  rewrite Hstep.
  destruct (lowest_of_scan rest first)
    as [[Heq Hall] | (b & a & Hl & Hlt & Hb & Ha)].
  - exists [], rest. rewrite Heq. simpl. repeat split; auto.
  - exists (first :: b), a. simpl. rewrite <- Hl.
    split; [reflexivity |].
    split; [constructor; assumption | assumption].
Qed.

End Lowest.

Lemma Qgtb_spec (a b : Q) : Qgtb a b = true <-> (b < a)%Q.
Proof.
  unfold Qgtb. change (b < a)%Q with (a > b)%Q. rewrite Qgt_alt.
  destruct (a ?= b)%Q; split; congruence.
Qed.

Lemma Qgtb_false (a b : Q) : (a <= b)%Q -> Qgtb a b = false.
Proof.
  intros Hle. destruct (Qgtb a b) eqn:E; [| reflexivity].
  apply Qgtb_spec in E. exfalso. exact (Qlt_not_le _ _ E Hle).
Qed.

(** C4. A falling player ([velocity_y > 0]) that overlaps at least one
    platform lands on the overlapping platform with the greatest bottom
    edge, the first such one in group order: the player's bottom becomes
    that platform's top, [velocity_y] is 0, [on_ground] is set and
    [jumping] cleared, and nothing else changes.  With [velocity_y <= 0]
    the platform pass leaves the state as it is. *)
Theorem land_on_lowest_overlapping_platform (g : Game.t) :
  let me := Player.rect (Game.player g) in
  let hits := spritecollide Platform.rect me (Game.platforms g) in
  let bottom := fun h => Rect.bottom (Platform.rect h) in
  ((0 < Player.velocity_y (Game.player g))%Q -> hits <> [] ->
   exists before lowest after,
     hits = before ++ lowest :: after /\
     Forall (fun h => bottom h < bottom lowest) before /\
     Forall (fun h => bottom h <= bottom lowest) after /\
     Game.collide_platforms g
       = Game.with_player (Game.land_on lowest (Game.player g)) g /\
     let p' := Game.player (Game.collide_platforms g) in
     Rect.bottom (Player.rect p') = Rect.top (Platform.rect lowest) /\
     Player.velocity_y p' = 0%Q /\
     Player.on_ground p' = true /\
     Player.jumping p' = false) /\
  ((Player.velocity_y (Game.player g) <= 0)%Q ->
   Game.collide_platforms g = g).
Proof.
  intros me hits bottom. split.
  - intros Hfall Hne.
    unfold Game.collide_platforms. fold me. fold hits.
    destruct hits as [| first rest] eqn:Hhits; [congruence |].
    destruct (lowest_of_hits first rest) as (b & a & Hl & Hb & Ha).
    exists b, (Game.lowest_of (first :: rest) first), a.
    apply Qgtb_spec in Hfall. rewrite Hfall.
    repeat split; auto.
    simpl. unfold Rect.bottom, Rect.set_bottom, Rect.top. simpl. lia.
  - intros Hup. unfold Game.collide_platforms. fold me. fold hits.
    destruct hits; [reflexivity |].
    now rewrite (Qgtb_false _ _ Hup).
Qed.

Lemma land_on_lowest_overlapping_platform_witness :
  (exists lowest,
     In lowest (Game.platforms sample_falling) /\
     Rect.bottom (Player.rect (Game.player
                    (Game.collide_platforms sample_falling)))
       = Rect.top (Platform.rect lowest)) /\
  Game.collide_platforms sample_rising = sample_rising.
Proof.
  split.
  - destruct (proj1 (land_on_lowest_overlapping_platform sample_falling))
      as (b & lo & a & Hhits & _ & _ & _ & Hbot & _).
    + reflexivity.
    + vm_compute. discriminate.
    + exists lo. split; [| exact Hbot].
      assert (Hin : In lo (spritecollide Platform.rect
                             (Player.rect (Game.player sample_falling))
                             (Game.platforms sample_falling))).
      { rewrite Hhits. apply in_or_app. right. left. reflexivity. }
      apply filter_In in Hin. exact (proj1 Hin).
  - apply (proj2 (land_on_lowest_overlapping_platform sample_rising)).
    vm_compute. discriminate.
Defined.

Example landing_example :
  let p' := Game.player (Game.collide_platforms sample_falling) in
  Player.rect p' = Rect.mk 100 296 32 64 /\
  Player.velocity_y p' = 0%Q /\ Player.on_ground p' = true.
Proof. vm_compute. repeat split. Qed.

(** ** Coins and enemy spawning *)

Lemma randint_range (a b : Z) (rng : Random.t) :
  a <= b -> a <= fst (Random.randint a b rng) <= b.
Proof.
  intros Hab. unfold Random.randint, Random.raw. simpl.
  pose proof (Z.mod_pos_bound (Random.draws rng (Random.used rng))
                (b - a + 1)) as Hm.
  lia.
Qed.

(** C5. Collecting one coin adds its value to the score.  If that moves
    the score across a multiple of 500 and fewer than 10 enemies exist,
    exactly one enemy is appended, on the enemy row and within the
    playfield's width; with no crossing, or with 10 or more enemies
    already present, the enemies are left as they are. *)
Theorem enemy_spawn_on_score_interval
    (coin : Coin.t) (g : Game.t) (rng : Random.t) :
  let old := Player.score (Game.player g) in
  let new := old + Coin.value coin in
  let g' := fst (Game.collect_coin coin g rng) in
  Player.score (Game.player g') = new /\
  (old / 500 < new / 500 ->
   Z.of_nat (length (Game.enemies g)) < 10 ->
   exists x, 0 <= x <= WIDTH /\
     Game.enemies g' = Game.enemies g ++ [Enemy.init x (HEIGHT - 80)]) /\
  (new / 500 <= old / 500 -> Game.enemies g' = Game.enemies g) /\
  (10 <= Z.of_nat (length (Game.enemies g)) ->
   Game.enemies g' = Game.enemies g).
Proof.
  intros old new g'. subst g'. unfold Game.collect_coin.
  unfold ENEMY_SPAWN_SCORE_INTERVAL, MAX_ENEMIES. cbn [Game.player
    Game.with_player Player.score Player.with_score Game.enemies].
  fold old. fold new. replace (new - Coin.value coin) with old by (subst new; lia).
  destruct (Z.gtb_spec (new / 500) (old / 500)) as [Hcross | Hsame];
    destruct (Z.ltb_spec (Z.of_nat (length (Game.enemies g))) 10)
      as [Hroom | Hfull];
    unfold bind, ret; cbn.
  - split; [reflexivity |]. split; [| split; intros; lia].
    intros _ _. exists (fst (Random.randint 0 WIDTH rng)).
    split; [apply randint_range; unfold WIDTH; lia |].
    unfold Random.randint, Random.raw. reflexivity.
  - split; [reflexivity |]. split; [intros; lia |]. split; reflexivity.
  - split; [reflexivity |]. split; [intros; lia |]. split; reflexivity.
  - split; [reflexivity |]. split; [intros; lia |]. split; reflexivity.
Qed.

Lemma enemy_spawn_on_score_interval_witness :
  let coin := Coin.init 300 400 in
  (length (Game.enemies
     (fst (Game.collect_coin coin (sample_scoring 495 3) sample_rng))) = 4%nat) /\
  Game.enemies (fst (Game.collect_coin coin (sample_scoring 10 3) sample_rng))
    = Game.enemies (sample_scoring 10 3) /\
  Game.enemies (fst (Game.collect_coin coin (sample_scoring 495 10) sample_rng))
    = Game.enemies (sample_scoring 495 10).
Proof.
  intros coin. split; [| split].
  - destruct (proj1 (proj2 (enemy_spawn_on_score_interval coin
                              (sample_scoring 495 3) sample_rng)))
      as (x & _ & Heq).
    + reflexivity.
    + reflexivity.
    + rewrite Heq, length_app. reflexivity.
  - apply (proj1 (proj2 (proj2 (enemy_spawn_on_score_interval coin
                                  (sample_scoring 10 3) sample_rng)))).
    vm_compute. discriminate.
  - apply (proj2 (proj2 (proj2 (enemy_spawn_on_score_interval coin
                                  (sample_scoring 495 10) sample_rng)))).
    vm_compute. discriminate.
Defined.

Example spawn_threshold_example :
  let coin := Coin.init 300 400 in
  let after s := fst (Game.collect_coin coin (sample_scoring s 3) sample_rng) in
  Player.score (Game.player (after 495)) = 505 /\
  length (Game.enemies (after 495)) = 4%nat /\
  Player.score (Game.player (after 10)) = 20 /\
  length (Game.enemies (after 10)) = 3%nat.
Proof. vm_compute. repeat split. Qed.

(** ** Enemy damage *)

(** C1, as stated, fails: with two enemies overlapping the player in one
    pass, health drops by 10, not by 2 * 10. *)
Lemma damage_is_not_per_enemy :
  let g := sample_two_enemies in
  let g' := fst (Game.handle_collisions g sample_rng) in
  length (spritecollide Enemy.rect (Player.rect (Game.player g))
                        (Game.enemies g)) = 2%nat /\
  Player.health (Game.player g) = 100 /\
  Player.health (Game.player g') = 90 /\
  Player.health (Game.player g')
    <> Player.health (Game.player g) - 2 * 10.
Proof. vm_compute. repeat split. discriminate. Qed.

(** C1, amended.  In a collision pass in which at least one enemy overlaps
    the player when the enemy check runs, the damage rule is applied once
    for the pass, however many enemies overlap: health drops by exactly 10
    from its value after the powerup check.  If the result is zero or
    below, the session is in GameOver; otherwise the flag is untouched. *)
Theorem enemy_damage_once_per_pass (g : Game.t) (rng : Random.t) :
  let before :=
    Game.collide_powerups
      (fst (Game.collide_coins (Game.collide_platforms g) rng)) in
  let enemy_hits :=
    spritecollide Enemy.rect (Player.rect (Game.player before))
                  (Game.enemies before) in
  let g' := fst (Game.handle_collisions g rng) in
  (1 <= length enemy_hits)%nat ->
  Player.health (Game.player g') = Player.health (Game.player before) - 10 /\
  (Player.health (Game.player g') <= 0 -> Game.game_over g' = true) /\
  (0 < Player.health (Game.player g') ->
   Game.game_over g' = Game.game_over before).
Proof.
  intros before enemy_hits g' Hhit.
  assert (Hg' : g' = Game.collide_enemies before).
  { subst g' before. unfold Game.handle_collisions, bind, ret.
    destruct (Game.collide_coins (Game.collide_platforms g) rng).
    reflexivity. }
  rewrite Hg'. unfold Game.collide_enemies. fold enemy_hits.
  destruct enemy_hits as [| e rest]; [simpl in Hhit; lia |].
  cbn [Game.player Game.with_player Player.health Player.with_health].
  destruct (Z.leb_spec (Player.health (Game.player before) - 10) 0)
    as [Hdead | Halive]; cbn; repeat split; auto; lia.
Qed.

Lemma enemy_damage_once_per_pass_witness :
  let g' := fst (Game.handle_collisions sample_two_enemies sample_rng) in
  Player.health (Game.player g') = 90 /\ Game.game_over g' = false.
Proof.
  destruct (enemy_damage_once_per_pass sample_two_enemies sample_rng)
    as (Hh & _ & Halive).
  - vm_compute. apply le_S, le_n.
  - cbv zeta in *. split.
    + rewrite Hh. reflexivity.
    + rewrite Halive; [reflexivity |]. rewrite Hh. reflexivity.
Defined.

Example last_hit_example :
  let g :=
    Game.with_player (Player.with_health 10 (Game.player sample_two_enemies))
                     sample_two_enemies in
  let g' := fst (Game.handle_collisions g sample_rng) in
  Player.health (Game.player g') = 0 /\ Game.game_over g' = true.
Proof. vm_compute. split; reflexivity. Qed.

(** ** Screen bounds *)

(** After [update] the player is inside the screen on the left, on the
    right and at the bottom, for a player no wider than the screen. *)
Lemma update_keeps_left_right_bottom (now : Z) (p : Player.t) :
  0 <= Rect.w (Player.rect p) <= WIDTH ->
  let r := Player.rect (Player.update now p) in
  0 <= Rect.left r /\ Rect.right r <= WIDTH /\ Rect.bottom r <= HEIGHT.
Proof.
  intros Hw. unfold Player.update.
  set (p1 := Player.move _).
  assert (Hw1 : Rect.w (Player.rect p1) = Rect.w (Player.rect p)).
  { subst p1. unfold Player.move, Player.animate.
    repeat match goal with |- context [if ?c then _ else _] => destruct c end;
      reflexivity. }
  clearbody p1. rewrite <- Hw1 in Hw. clear Hw1.
  unfold Player.clamp_bottom, Player.clamp_right, Player.clamp_left.
  unfold Rect.left, Rect.right, Rect.bottom, Rect.set_left, Rect.set_right,
    Rect.set_bottom, Rect.set_x, Rect.set_y, WIDTH, HEIGHT in *.
  destruct p1 as [cf lu img [x y w h] vx vy og fr hp sc jp].
  cbn -[Z.add Z.sub] in *.
  destruct (Z.ltb_spec x 0); cbn -[Z.add Z.sub];
    repeat match goal with
           | |- context [?a >? ?b] =>
               destruct (Z.gtb_spec a b); cbn -[Z.add Z.sub] in *
           end; lia.
Qed.


(** ** What each step of a frame preserves *)

Lemma for_each_range_length {A : Type}
    (body : Z -> list A -> Rand (list A)) (l : list Z) :
  (forall i acc rng,
     length (fst (body i acc rng)) = S (length acc)) ->
  forall acc rng,
    length (fst (for_each body l acc rng)) = (length acc + length l)%nat.
Proof.
  intros Hbody. induction l as [| i l IH]; intros acc rng; simpl.
  - unfold ret. simpl. lia.
  - unfold bind. specialize (Hbody i acc rng).
    destruct (body i acc rng) as [acc' rng']. simpl in Hbody.
    rewrite IH, Hbody. lia.
Qed.

Lemma make_platform_length (ph ps i : Z) (acc : list Platform.t)
    (rng : Random.t) :
  length (fst (Game.make_platform ph ps i acc rng)) = S (length acc).
Proof.
  unfold Game.make_platform, bind, ret, Random.randint, Random.choice_bool,
    Random.raw.
  destruct (i >? 0); simpl; rewrite length_app; simpl; lia.
Qed.

Lemma range_length (n : Z) : length (range n) = Z.to_nat n.
Proof. unfold range. now rewrite length_map, length_seq. Qed.

(** The constructor succeeds exactly on a non-zero count, and builds a
    playing session at full health with no score and [num_platforms]
    platforms. *)
Lemma init_spec (n : Z) (rng0 : Random.t) :
  Z.min n MAX_PLATFORMS <> 0 ->
  exists g rng,
    Game.init n rng0 = Some (g, rng) /\
    Game.num_platforms g = Z.min n MAX_PLATFORMS /\
    length (Game.platforms g) = Z.to_nat (Z.min n MAX_PLATFORMS) /\
    Game.running g = true /\
    Game.game_over g = false /\
    Game.player g = Player.init /\
    Game.coins g = [] /\ Game.powerups g = [].
Proof.
  intros Hnz. unfold Game.init, Game.setup_level.
  cbn [Game.num_platforms Game.with_player Game.platforms Game.enemies].
  destruct (Z.eqb_spec (Z.min n MAX_PLATFORMS) 0) as [E | _]; [contradiction |].
  pose proof (for_each_range_length
    (Game.make_platform (HEIGHT - 40)
       ((HEIGHT - 200) / Z.min n MAX_PLATFORMS))
    (range (Z.min n MAX_PLATFORMS))
    (make_platform_length _ _) [] rng0) as Hlen.
  destruct (for_each _ (range (Z.min n MAX_PLATFORMS)) [] rng0)
    as [ps rng1].
  destruct (for_each Game.make_enemy (range 3) [] rng1) as [es rng2].
  exists (Game.with_enemies es
            (Game.with_platforms ps
               (Game.mk true false 0 (Z.min n MAX_PLATFORMS) Player.init
                        [] [] [] []))), rng2.
  simpl in Hlen. rewrite range_length in Hlen.
  repeat split; auto.
Qed.

Lemma init_inv (n : Z) (rng0 : Random.t) (g : Game.t) (rng : Random.t) :
  Game.init n rng0 = Some (g, rng) -> session_inv g.
Proof.
  intros Hinit.
  destruct (Z.eq_dec (Z.min n MAX_PLATFORMS) 0) as [E | Hnz].
  - unfold Game.init, Game.setup_level in Hinit.
    cbn [Game.num_platforms Game.with_player] in Hinit.
    rewrite E in Hinit. discriminate.
  - destruct (init_spec n rng0 Hnz)
      as (g0 & r0 & H0 & Hn & _ & _ & Hgo & Hp & Hc & _).
    rewrite H0 in Hinit. injection Hinit as <- <-.
    constructor; rewrite ?Hp, ?Hn, ?Hc; cbn; try lia; auto.
Qed.

(** Event handling. *)

Lemma jump_keeps (p : Player.t) :
  Player.health (Player.jump p) = Player.health p /\
  Player.score (Player.jump p) = Player.score p /\
  Player.rect (Player.jump p) = Player.rect p.
Proof. unfold Player.jump. destruct (_ && _); repeat split. Qed.

Lemma same_simulation_refl (g : Game.t) : same_simulation g g.
Proof. unfold same_simulation. repeat split. Qed.

Lemma same_simulation_trans (g1 g2 g3 : Game.t) :
  same_simulation g1 g2 -> same_simulation g2 g3 -> same_simulation g1 g3.
Proof. unfold same_simulation. intuition congruence. Qed.

Lemma handle_keys_keeps (f : Frame) (g : Game.t) :
  same_simulation g (Game.handle_keys f g).
Proof.
  unfold Game.handle_keys, same_simulation.
  destruct (held_left f), (held_right f); cbn; repeat split.
Qed.

(** An event other than a restart keeps the simulation state and draws
    nothing. *)
Lemma handle_event_keeps (ev : Event) (g : Game.t) (rng : Random.t) :
  ~ (Game.game_over g = true /\ ev = KEYDOWN K_r) ->
  exists g',
    Game.handle_event ev g rng = Some (g', rng) /\ same_simulation g g'.
Proof.
  intros Hno. destruct (jump_keeps (Game.player g)) as (Hh & Hs & Hr).
  unfold same_simulation.
  destruct ev as [| [| | | |] |]; cbn;
    try (eexists; split; [reflexivity |]; cbn; repeat split; auto; fail).
  destruct (Game.game_over g) eqn:Hgo.
  - exfalso. apply Hno. split; reflexivity.
  - eexists; split; [reflexivity |]. rewrite Hgo. repeat split.
Qed.

Lemma handle_queue_keeps (evs : list Event) :
  forall (g : Game.t) (rng : Random.t),
  ~ (Game.game_over g = true /\ In (KEYDOWN K_r) evs) ->
  exists g',
    Game.handle_queue evs g rng = Some (g', rng) /\ same_simulation g g'.
Proof.
  induction evs as [| ev evs IH]; intros g rng Hno.
  - exists g. split; [reflexivity | apply same_simulation_refl].
  - destruct (handle_event_keeps ev g rng) as (g1 & H1 & Hs1).
    { intros [Hgo ->]. apply Hno. split; [assumption | now left]. }
    destruct (IH g1 rng) as (g2 & H2 & Hs2).
    { intros [Hg Hin]. apply Hno. split; [| now right].
      destruct Hs1 as (_ & _ & _ & Hgo & _). congruence. }
    exists g2. cbn [Game.handle_queue]. rewrite H1.
    split; [exact H2 | exact (same_simulation_trans _ _ _ Hs1 Hs2)].
Qed.

Lemma handle_events_keeps (f : Frame) (g : Game.t) (rng : Random.t) :
  ~ restarts f g ->
  exists g',
    Game.handle_events f g rng = Some (g', rng) /\ same_simulation g g'.
Proof.
  intros Hno. destruct (handle_queue_keeps (events f) g rng Hno)
    as (g1 & H1 & Hs1).
  exists (Game.handle_keys f g1). unfold Game.handle_events. rewrite H1.
  split; [reflexivity |].
  exact (same_simulation_trans _ _ _ Hs1 (handle_keys_keeps f g1)).
Qed.

(** The simulation step. *)

Ltac case_ifs :=
  repeat match goal with
         | |- context [if ?c then _ else _] => destruct c
         end.

Lemma player_update_keeps (now : Z) (p : Player.t) :
  Player.health (Player.update now p) = Player.health p /\
  Player.score (Player.update now p) = Player.score p.
Proof.
  unfold Player.update, Player.clamp_bottom, Player.clamp_right,
    Player.clamp_left, Player.move, Player.animate.
  case_ifs; split; reflexivity.
Qed.

Lemma scores_only_inv (g g' : Game.t) :
  scores_only g g' -> session_inv g -> session_inv g'.
Proof.
  intros (Hh & Hs & Hgo & Hn & Hc) [I1 I2 I3 I4 I5 I6].
  constructor; rewrite ?Hh, ?Hgo, ?Hn; auto. lia.
Qed.

Lemma scores_only_trans (g1 g2 g3 : Game.t) :
  scores_only g1 g2 -> scores_only g2 g3 -> scores_only g1 g3.
Proof.
  unfold scores_only. intros (A1 & A2 & A3 & A4 & A5) (B1 & B2 & B3 & B4 & B5).
  repeat split; try congruence; try lia; auto.
Qed.

Lemma spawn_coin_scores_only (now : Z) (g : Game.t) (rng : Random.t) :
  scores_only g (fst (Game.spawn_coin now g rng)).
Proof.
  unfold Game.spawn_coin, scores_only, bind, ret, Random.randint,
    Random.random, Random.raw.
  destruct (now - Game.last_coin_spawn g >? COIN_SPAWN_RATE); cbn.
  - destruct (Qltb _ _); cbn; repeat split; try lia;
      intros Hc; apply Forall_app; split; auto.
  - repeat split; auto; lia.
Qed.

Section Steps.

Variable math_sin : Q -> Q.

Lemma update_sprites_scores_only (now : Z) (g : Game.t) :
  scores_only g (Game.update_sprites math_sin now g).
Proof.
  destruct (player_update_keeps now (Game.player g)) as [Hh Hs].
  unfold scores_only, Game.update_sprites; cbn.
  rewrite Hh, Hs. repeat split; auto; lia.
Qed.

End Steps.

Lemma collide_platforms_scores_only (g : Game.t) :
  scores_only g (Game.collide_platforms g) /\
  Game.coins (Game.collide_platforms g) = Game.coins g /\
  Player.score (Game.player (Game.collide_platforms g))
    = Player.score (Game.player g).
Proof.
  unfold scores_only, Game.collide_platforms.
  destruct (spritecollide _ _ _); [| destruct (Qgtb _ _)]; cbn;
    repeat split; auto; lia.
Qed.

Lemma collect_coin_keeps (coin : Coin.t) (g : Game.t) (rng : Random.t) :
  let g' := fst (Game.collect_coin coin g rng) in
  Player.health (Game.player g') = Player.health (Game.player g) /\
  Player.score (Game.player g')
    = Player.score (Game.player g) + Coin.value coin /\
  Game.game_over g' = Game.game_over g /\
  Game.num_platforms g' = Game.num_platforms g /\
  Game.coins g' = Game.coins g /\
  Player.rect (Game.player g') = Player.rect (Game.player g).
Proof.
  unfold Game.collect_coin, bind, ret, Random.randint, Random.raw.
  cbn -[Z.div Z.add Z.sub Z.modulo]. case_ifs; cbn; repeat split.
Qed.

Lemma collect_loop_keeps (hits : list Coin.t) :
  forall (g : Game.t) (rng : Random.t),
  let g' := fst (for_each Game.collect_coin hits g rng) in
  Player.health (Game.player g') = Player.health (Game.player g) /\
  Player.score (Game.player g')
    = Player.score (Game.player g) + list_sum_values hits /\
  Game.game_over g' = Game.game_over g /\
  Game.num_platforms g' = Game.num_platforms g /\
  Game.coins g' = Game.coins g /\
  Player.rect (Game.player g') = Player.rect (Game.player g).
Proof.
  induction hits as [| c hits IH]; intros g rng; cbn [for_each].
  - unfold ret. cbn. repeat split; lia.
  - unfold bind.
    pose proof (collect_coin_keeps c g rng) as H1.
    destruct (Game.collect_coin c g rng) as [g1 rng1].
    cbn [fst] in H1. destruct H1 as (A1 & A2 & A3 & A4 & A5 & A6).
    destruct (IH g1 rng1) as (B1 & B2 & B3 & B4 & B5 & B6).
    cbn [list_sum_values fold_right map].
    repeat split; try congruence.
    rewrite B2, A2. unfold list_sum_values. cbn. lia.
Qed.

Lemma values_ten_sum (l : list Coin.t) :
  Forall (fun c => Coin.value c = 10) l ->
  list_sum_values l = 10 * Z.of_nat (length l).
Proof.
  unfold list_sum_values.
  induction 1 as [| c l Hc _ IH]; cbn [map fold_right length].
  - reflexivity.
  - rewrite IH, Hc. lia.
Qed.

Lemma Forall_filter {A : Type} (P : A -> Prop) (f : A -> bool) (l : list A) :
  Forall P l -> Forall P (filter f l).
Proof.
  intros H. apply Forall_forall. intros a Ha.
  apply filter_In in Ha. rewrite Forall_forall in H. apply H, Ha.
Qed.

(** The coin pass: the hit coins leave the group and their values go to
    the score. *)
Lemma collide_coins_spec (g : Game.t) (rng : Random.t) :
  let me := Player.rect (Game.player g) in
  let g' := fst (Game.collide_coins g rng) in
  Game.coins g' = survivors Coin.rect me (Game.coins g) /\
  Player.score (Game.player g')
    = Player.score (Game.player g)
      + list_sum_values (spritecollide Coin.rect me (Game.coins g)) /\
  Player.health (Game.player g') = Player.health (Game.player g) /\
  Game.game_over g' = Game.game_over g /\
  Game.num_platforms g' = Game.num_platforms g /\
  Player.rect (Game.player g') = me.
Proof.
  intros me g'. subst g'. unfold Game.collide_coins. fold me.
  destruct (collect_loop_keeps (spritecollide Coin.rect me (Game.coins g))
              (Game.with_coins (survivors Coin.rect me (Game.coins g)) g) rng)
    as (A1 & A2 & A3 & A4 & A5 & A6).
  cbn in *. repeat split; assumption.
Qed.

Lemma collide_coins_scores_only (g : Game.t) (rng : Random.t) :
  Forall (fun c => Coin.value c = 10) (Game.coins g) ->
  scores_only g (fst (Game.collide_coins g rng)).
Proof.
  intros Hc.
  destruct (collide_coins_spec g rng) as (A1 & A2 & A3 & A4 & A5 & _).
  unfold scores_only. rewrite A1, A2, A3, A4, A5.
  unfold spritecollide, survivors.
  rewrite (values_ten_sum _ (Forall_filter _ _ _ Hc)).
  repeat split; try lia. intros _. now apply Forall_filter.
Qed.

(** The powerup pass moves health up within [0, 100], in tens. *)
Lemma heal_loop (hits : list HealthPowerup.t) :
  forall g : Game.t,
  let g' := fold_left (fun g _ => Game.heal g) hits g in
  (0 <= Player.health (Game.player g) <= 100 ->
   Player.health (Game.player g) mod 10 = 0 ->
   Player.health (Game.player g) <= Player.health (Game.player g') <= 100 /\
   Player.health (Game.player g') mod 10 = 0) /\
  Player.score (Game.player g') = Player.score (Game.player g) /\
  Player.rect (Game.player g') = Player.rect (Game.player g) /\
  Game.game_over g' = Game.game_over g /\
  Game.num_platforms g' = Game.num_platforms g /\
  Game.coins g' = Game.coins g /\
  Game.enemies g' = Game.enemies g /\
  Game.powerups g' = Game.powerups g.
Proof.
  induction hits as [| h hits IH]; intros g; cbn [fold_left].
  - repeat split; lia.
  - destruct (IH (Game.heal g)) as (B1 & B2 & B3 & B4 & B5 & B6 & B7 & B8).
    cbn [Game.heal Game.player Game.with_player Player.health
         Player.with_health Player.score Player.rect Game.game_over
         Game.num_platforms Game.coins Game.enemies Game.powerups] in *.
    split; [| repeat split; assumption].
    intros Hr Hm.
    assert (Hm' : Z.min 100 (Player.health (Game.player g) + 30) mod 10 = 0).
    { destruct (Z.min_spec 100 (Player.health (Game.player g) + 30))
        as [[_ ->] | [_ ->]]; [reflexivity |].
      rewrite <- Zplus_mod_idemp_l, Hm. reflexivity. }
    destruct B1 as [C1 C2]; [lia | exact Hm' |].
    split; [lia | exact C2].
Qed.

Lemma collide_powerups_spec (g : Game.t) :
  let g' := Game.collide_powerups g in
  (0 <= Player.health (Game.player g) <= 100 ->
   Player.health (Game.player g) mod 10 = 0 ->
   Player.health (Game.player g) <= Player.health (Game.player g') <= 100 /\
   Player.health (Game.player g') mod 10 = 0) /\
  Player.score (Game.player g') = Player.score (Game.player g) /\
  Player.rect (Game.player g') = Player.rect (Game.player g) /\
  Game.game_over g' = Game.game_over g /\
  Game.num_platforms g' = Game.num_platforms g /\
  Game.coins g' = Game.coins g /\
  Game.enemies g' = Game.enemies g.
Proof.
  intros g'. subst g'. unfold Game.collide_powerups.
  set (me := Player.rect (Game.player g)).
  destruct (heal_loop (spritecollide HealthPowerup.rect me (Game.powerups g))
              (Game.with_powerups
                 (survivors HealthPowerup.rect me (Game.powerups g)) g))
    as (B1 & B2 & B3 & B4 & B5 & B6 & B7 & _).
  cbn in *. repeat split; try assumption; apply B1; assumption.
Qed.

Lemma collide_enemies_spec (g : Game.t) :
  let g' := Game.collide_enemies g in
  Player.score (Game.player g') = Player.score (Game.player g) /\
  Game.num_platforms g' = Game.num_platforms g /\
  Game.coins g' = Game.coins g /\
  (Player.health (Game.player g') = Player.health (Game.player g) /\
   Game.game_over g' = Game.game_over g
   \/
   Player.health (Game.player g') = Player.health (Game.player g) - 10 /\
   Game.game_over g'
     = if Player.health (Game.player g) - 10 <=? 0 then true
       else Game.game_over g).
Proof.
  intros g'. subst g'. unfold Game.collide_enemies.
  destruct (spritecollide _ _ _); [cbn; repeat split; auto |].
  cbn [Game.player Game.with_player Player.health Player.with_health].
  destruct (Player.health (Game.player g) - 10 <=? 0); cbn;
    repeat split; right; split; reflexivity.
Qed.

Lemma handle_collisions_passes (g : Game.t) (rng : Random.t) :
  fst (Game.handle_collisions g rng)
  = Game.collide_enemies
      (Game.collide_powerups
         (fst (Game.collide_coins (Game.collide_platforms g) rng))).
Proof.
  unfold Game.handle_collisions, bind, ret.
  destruct (Game.collide_coins (Game.collide_platforms g) rng).
  reflexivity.
Qed.

Lemma handle_collisions_inv (g : Game.t) (rng : Random.t) :
  session_inv g -> Game.game_over g = false ->
  let g' := fst (Game.handle_collisions g rng) in
  session_inv g' /\
  Player.score (Game.player g) <= Player.score (Game.player g').
Proof.
  intros Hinv Hplay g'. subst g'. rewrite handle_collisions_passes.
  destruct (collide_platforms_scores_only g) as (S1 & _ & _).
  set (g1 := Game.collide_platforms g) in *.
  pose proof (scores_only_inv _ _ S1 Hinv) as I1.
  pose proof (collide_coins_scores_only g1 rng (inv_coins _ I1)) as S2.
  set (g2 := fst (Game.collide_coins g1 rng)) in *.
  pose proof (scores_only_inv _ _ S2 I1) as I2.
  destruct (collide_powerups_spec g2) as (P1 & P2 & _ & P4 & P5 & P6 & _).
  set (g3 := Game.collide_powerups g2) in *.
  destruct (P1 (inv_health_range _ I2) (inv_health_tens _ I2)) as [Hr Hm].
  destruct (collide_enemies_spec g3) as (E1 & E2 & E3 & E4).
  set (g4 := Game.collide_enemies g3) in *.
  assert (Hgo2 : Game.game_over g2 = false).
  { destruct S1 as (_ & _ & G1 & _), S2 as (_ & _ & G2 & _). congruence. }
  pose proof (inv_alive _ I2 Hgo2) as Halive.
  pose proof (inv_score _ I2) as Hsc.
  pose proof (inv_num_platforms _ I2) as Hnp.
  pose proof (inv_coins _ I2) as Hco.
  assert (Hscore : Player.score (Game.player g)
                   <= Player.score (Game.player g4)).
  { destruct S1 as (_ & A & _), S2 as (_ & B & _). lia. }
  split; [| exact Hscore].
  assert (Hten : 10 <= Player.health (Game.player g3)).
  { pose proof (Z.mod_divide (Player.health (Game.player g3)) 10) as Hd.
    destruct (proj1 (Hd ltac:(lia)) Hm) as [k Hk]. lia. }
  constructor; rewrite ?E1, ?E2, ?E3, ?P2, ?P5, ?P6; auto.
  - destruct E4 as [[-> _] | [-> _]]; lia.
  - destruct E4 as [[-> _] | [-> _]]; [exact Hm |].
    rewrite <- (Z.mod_add _ 1 10) by lia.
    replace (Player.health (Game.player g3) - 10 + 1 * 10)
      with (Player.health (Game.player g3)) by lia.
    exact Hm.
  - destruct E4 as [[-> _] | [-> Hg]]; [lia |].
    rewrite Hg. destruct (Z.leb_spec (Player.health (Game.player g3) - 10) 0);
      [discriminate | lia].
Qed.

Lemma same_simulation_inv (g g' : Game.t) :
  same_simulation g g' -> session_inv g -> session_inv g'.
Proof.
  intros (Hh & Hs & _ & Hgo & _ & Hn & _ & Hc & _) [I1 I2 I3 I4 I5 I6].
  constructor; rewrite ?Hh, ?Hs, ?Hgo, ?Hn, ?Hc; auto.
Qed.

Section Frames.

Variable math_sin : Q -> Q.

Lemma update_inv (f : Frame) (g : Game.t) (rng : Random.t) :
  session_inv g -> Game.game_over g = false ->
  let g' := fst (Game.update math_sin f g rng) in
  session_inv g' /\
  Player.score (Game.player g) <= Player.score (Game.player g').
Proof.
  intros Hinv Hplay g'. subst g'. unfold Game.update, bind.
  pose proof (spawn_coin_scores_only (ticks_spawn f) g rng) as S1.
  destruct (Game.spawn_coin (ticks_spawn f) g rng) as [g1 rng1].
  cbn [fst] in S1.
  pose proof (update_sprites_scores_only math_sin (ticks_player f) g1) as S2.
  pose proof (scores_only_trans _ _ _ S1 S2) as S.
  destruct (handle_collisions_inv
              (Game.update_sprites math_sin (ticks_player f) g1) rng1)
    as [I Hs].
  - exact (scores_only_inv _ _ S Hinv).
  - destruct S as (_ & _ & Hgo & _). congruence.
  - split; [exact I |]. destruct S as (_ & Hle & _). lia.
Qed.

(** Event handling keeps the invariant and, on a session that satisfies
    it, never raises. *)
Lemma handle_event_inv (ev : Event) (g : Game.t) (rng : Random.t) :
  session_inv g ->
  exists g' rng',
    Game.handle_event ev g rng = Some (g', rng') /\ session_inv g'.
Proof.
  intros Hinv.
  destruct (Bool.bool_dec (Game.game_over g) true) as [Hgo | Hgo].
  - destruct ev as [| k |].
    2: destruct k.
    3: { (* restart *)
      cbn. rewrite Hgo.
      destruct (inv_num_platforms _ Hinv) as [Hnz Hle].
      assert (Hmin : Z.min (Game.num_platforms g) MAX_PLATFORMS <> 0) by lia.
      destruct (init_spec (Game.num_platforms g) rng Hmin)
        as (g' & rng' & Hinit & _).
      exists g', rng'. split; [exact Hinit |].
      exact (init_inv _ _ _ _ Hinit). }
    all: match goal with
         | |- context [Game.handle_event ?e ?g0 ?r0] =>
             destruct (handle_event_keeps e g0 r0) as (g' & H1 & Hs);
             [intros [_ Hev]; discriminate Hev |];
             exists g', r0; split;
             [exact H1 | exact (same_simulation_inv _ _ Hs Hinv)]
         end.
  - destruct (handle_event_keeps ev g rng) as (g' & H1 & Hs).
    { intros [Hg _]. contradiction. }
    exists g', rng. split;
      [exact H1 | exact (same_simulation_inv _ _ Hs Hinv)].
Qed.

Lemma handle_queue_inv (evs : list Event) :
  forall (g : Game.t) (rng : Random.t),
  session_inv g ->
  exists g' rng',
    Game.handle_queue evs g rng = Some (g', rng') /\ session_inv g'.
Proof.
  induction evs as [| ev evs IH]; intros g rng Hinv.
  - exists g, rng. split; [reflexivity | assumption].
  - destruct (handle_event_inv ev g rng Hinv) as (g1 & rng1 & H1 & I1).
    destruct (IH g1 rng1 I1) as (g2 & rng2 & H2 & I2).
    exists g2, rng2. cbn [Game.handle_queue]. rewrite H1.
    split; assumption.
Qed.

Lemma run_frame_inv (f : Frame) (g : Game.t) (rng : Random.t) :
  session_inv g ->
  exists g' rng',
    Game.run_frame math_sin f g rng = Some (g', rng') /\ session_inv g'.
Proof.
  intros Hinv.
  destruct (handle_queue_inv (events f) g rng Hinv)
    as (g1 & rng1 & H1 & I1).
  pose proof (same_simulation_inv _ _ (handle_keys_keeps f g1) I1) as I2.
  unfold Game.run_frame, Game.handle_events. rewrite H1.
  destruct (Game.game_over (Game.handle_keys f g1)) eqn:Hgo; cbn [negb].
  - exists (Game.handle_keys f g1), rng1. split; [reflexivity | exact I2].
  - destruct (update_inv f (Game.handle_keys f g1) rng1 I2 Hgo) as [I3 _].
    destruct (Game.update math_sin f (Game.handle_keys f g1) rng1)
      as [g3 rng3].
    exists g3, rng3. split; [reflexivity | exact I3].
Qed.

Lemma reachable_inv (g : Game.t) (rng : Random.t) :
  Game.reachable math_sin g rng -> session_inv g.
Proof.
  induction 1 as [n rng0 g rng Hinit | f g rng g' rng' _ IH _ Hstep].
  - exact (init_inv _ _ _ _ Hinit).
  - destruct (run_frame_inv f g rng IH) as (g1 & rng1 & H1 & I1).
    rewrite H1 in Hstep. injection Hstep as <- <-. exact I1.
Qed.

Lemma reachable_run (frames : list Frame) :
  forall g rng g' rng',
  Game.reachable math_sin g rng ->
  Game.run math_sin frames g rng = Some (g', rng') ->
  Game.reachable math_sin g' rng'.
Proof.
  induction frames as [| f frames IH]; intros g rng g' rng' Hr Hrun;
    cbn [Game.run] in Hrun.
  - injection Hrun as <- <-. exact Hr.
  - destruct (Game.running g) eqn:Hrunning.
    + destruct (Game.run_frame math_sin f g rng) as [[g1 rng1] |] eqn:Hf;
        [| discriminate].
      apply (IH g1 rng1); [| exact Hrun].
      exact (Game.reach_frame math_sin f g rng g1 rng1 Hr Hrunning Hf).
    + injection Hrun as <- <-. exact Hr.
Qed.

(** A frame that does not restart the session never lowers the score. *)
Lemma run_frame_score (f : Frame) (g : Game.t) (rng : Random.t)
    (g' : Game.t) (rng' : Random.t) :
  session_inv g -> ~ restarts f g ->
  Game.run_frame math_sin f g rng = Some (g', rng') ->
  Player.score (Game.player g) <= Player.score (Game.player g').
Proof.
  intros Hinv Hno Hstep.
  destruct (handle_events_keeps f g rng Hno) as (g1 & H1 & Hs).
  pose proof (same_simulation_inv _ _ Hs Hinv) as I1.
  unfold Game.run_frame in Hstep. rewrite H1 in Hstep.
  destruct Hs as (_ & Hsc & _).
  destruct (Game.game_over g1) eqn:Hgo; cbn [negb] in Hstep.
  - injection Hstep as <- <-. lia.
  - pose proof (update_inv f g1 rng I1 Hgo) as [_ Hle].
    destruct (Game.update math_sin f g1 rng) as [g3 rng3].
    injection Hstep as <- <-. cbn [fst] in Hle. lia.
Qed.

End Frames.

(** C7, as stated, fails: in GameOver, with no restart input, a frame
    still runs input handling, which overwrites the player's horizontal
    velocity from the held keys and lets the space bar start a jump. *)
Lemma game_over_frame_rewrites_velocity :
  Game.game_over sample_game_over = true /\
  ~ In (KEYDOWN K_r) (events held_left_frame) /\
  Player.velocity_x (Game.player sample_game_over) = 0 /\
  option_map (fun s => Player.velocity_x (Game.player (fst s)))
    (Game.run_frame sample_sin held_left_frame sample_game_over
                    sample_game_over_rng)
  = Some (-8) /\
  Player.velocity_y (Game.player sample_game_over) = 4 # 5 /\
  option_map (fun s => Player.velocity_y (Game.player (fst s)))
    (Game.run_frame sample_sin (mkFrame [KEYDOWN K_SPACE] false false 0 0)
                    sample_game_over sample_game_over_rng)
  = Some ((-16) # 1).
Proof.
  split; [reflexivity |]. split; [intros H; exact H |].
  vm_compute. repeat split.
Qed.

Section Sessions.

Variable math_sin : Q -> Q.

(** The sample session is one that a run really reaches. *)
Lemma sample_game_over_reachable :
  Game.reachable math_sin sample_game_over sample_game_over_rng.
Proof.
  destruct (Game.init 5 (Random.mk sample_stream 0)) as [[g0 rng0] |] eqn:H0;
    [| vm_compute in H0; discriminate H0].
  apply (reachable_run math_sin (repeat idle_frame 40) g0 rng0).
  - exact (Game.reach_init math_sin 5 _ g0 rng0 H0).
  - vm_compute in H0. injection H0 as <- <-. vm_compute. reflexivity.
Qed.

(** C7, amended.  While the session is in GameOver, a frame without a
    restart input performs no simulation update and draws nothing from the
    random source: the session stays in GameOver, and the player's
    position, score and health, the coin-spawn timer, and every platform,
    coin, enemy and powerup (position and motion state) are unchanged.
    The player's own velocity, facing and jump flags are not covered:
    input handling still writes them. *)
Theorem game_over_frame_keeps_simulation
    (f : Frame) (g : Game.t) (rng : Random.t) :
  Game.game_over g = true ->
  ~ In (KEYDOWN K_r) (events f) ->
  exists g',
    Game.run_frame math_sin f g rng = Some (g', rng) /\
    Game.game_over g' = true /\
    Player.rect (Game.player g') = Player.rect (Game.player g) /\
    Player.score (Game.player g') = Player.score (Game.player g) /\
    Player.health (Game.player g') = Player.health (Game.player g) /\
    Game.last_coin_spawn g' = Game.last_coin_spawn g /\
    Game.platforms g' = Game.platforms g /\
    Game.coins g' = Game.coins g /\
    Game.enemies g' = Game.enemies g /\
    Game.powerups g' = Game.powerups g.
Proof.
  intros Hgo Hno.
  destruct (handle_events_keeps f g rng) as (g1 & H1 & Hs).
  { intros [_ Hin]. exact (Hno Hin). }
  destruct Hs as (Hh & Hsc & Hr & Hg & Hl & _ & Hp & Hc & He & Hw).
  exists g1. unfold Game.run_frame. rewrite H1, Hg, Hgo. cbn [negb].
  repeat split; assumption.
Qed.

(** C8.  In a session that has reached GameOver, the R key rebuilds the
    session: the constructor succeeds, the platform count is the one
    configured before and that many platforms are laid out, and the new
    session is playing, with the player at health 100 and score 0. *)
Theorem restart_rebuilds_session (g : Game.t) (rng : Random.t) :
  Game.reachable math_sin g rng ->
  Game.game_over g = true ->
  exists g' rng',
    Game.handle_event (KEYDOWN K_r) g rng = Some (g', rng') /\
    Game.num_platforms g' = Game.num_platforms g /\
    length (Game.platforms g') = Z.to_nat (Game.num_platforms g) /\
    Game.running g' = true /\
    Game.game_over g' = false /\
    Player.health (Game.player g') = 100 /\
    Player.score (Game.player g') = 0.
Proof.
  intros Hreach Hgo.
  destruct (inv_num_platforms _ (reachable_inv math_sin g rng Hreach))
    as [Hnz Hle].
  assert (Hmin : Z.min (Game.num_platforms g) MAX_PLATFORMS
                 = Game.num_platforms g) by lia.
  destruct (init_spec (Game.num_platforms g) rng)
    as (g' & rng' & Hinit & Hn & Hlen & Hrun & Hover & Hp & _).
  { rewrite Hmin. exact Hnz. }
  exists g', rng'. cbn [Game.handle_event]. rewrite Hgo.
  rewrite Hmin in Hn, Hlen. rewrite Hp.
  repeat split; assumption || reflexivity.
Qed.

(** C2.  In every state a session reaches, health lies in [0, 100]; a
    powerup never takes it above 100, and while the session is playing it
    is at least the damage amount, so a hit never takes it below 0. *)
Theorem health_within_bounds (g : Game.t) (rng : Random.t) :
  Game.reachable math_sin g rng ->
  0 <= Player.health (Game.player g) <= 100 /\
  Player.health (Game.player (Game.heal g)) <= 100 /\
  (Game.game_over g = false -> 0 <= Player.health (Game.player g) - 10).
Proof.
  intros Hreach.
  destruct (reachable_inv math_sin g rng Hreach) as [Hr Hm Ha _ _ _].
  split; [exact Hr |]. split.
  - cbn. lia.
  - intros Hplay. specialize (Ha Hplay).
    destruct (proj1 (Z.mod_divide (Player.health (Game.player g)) 10
                       ltac:(lia)) Hm) as [k Hk].
    lia.
Qed.

(** C6.  In one collision pass every coin that overlaps the player (as
    placed by the platform check of that pass) leaves the coin group, the
    other coins stay, and the score grows by 10 for each coin taken; a
    coin that was taken is no longer in the group, so no later pass can
    take it again.  In every state a session reaches all coins are worth
    10 and the score is non-negative, and a frame that does not restart
    the session never lowers the score. *)
Theorem coins_collected_once_score_monotone :
  (forall (g : Game.t) (rng : Random.t),
     Forall (fun c => Coin.value c = 10) (Game.coins g) ->
     let me := Player.rect (Game.player (Game.collide_platforms g)) in
     let coin_hits := spritecollide Coin.rect me (Game.coins g) in
     let g' := fst (Game.handle_collisions g rng) in
     Game.coins g' = survivors Coin.rect me (Game.coins g) /\
     (forall c, In c coin_hits -> ~ In c (Game.coins g')) /\
     (forall c, In c (Game.coins g) -> ~ In c coin_hits ->
                In c (Game.coins g')) /\
     Player.score (Game.player g')
       = Player.score (Game.player g) + 10 * Z.of_nat (length coin_hits)) /\
  (forall (g : Game.t) (rng : Random.t),
     Game.reachable math_sin g rng ->
     Forall (fun c => Coin.value c = 10) (Game.coins g) /\
     0 <= Player.score (Game.player g)) /\
  (forall (f : Frame) (g : Game.t) (rng : Random.t)
          (g' : Game.t) (rng' : Random.t),
     Game.reachable math_sin g rng ->
     ~ restarts f g ->
     Game.run_frame math_sin f g rng = Some (g', rng') ->
     Player.score (Game.player g) <= Player.score (Game.player g')).
Proof.
  split; [| split].
  - intros g rng Hten me coin_hits g'.
    destruct (collide_platforms_scores_only g) as (_ & Hc1 & Hs1).
    destruct (collide_coins_spec (Game.collide_platforms g) rng)
      as (Hc2 & Hs2 & _).
    destruct (collide_powerups_spec
                (fst (Game.collide_coins (Game.collide_platforms g) rng)))
      as (_ & Hs3 & _ & _ & _ & Hc3 & _).
    destruct (collide_enemies_spec
                (Game.collide_powerups
                   (fst (Game.collide_coins (Game.collide_platforms g) rng))))
      as (Hs4 & _ & Hc4 & _).
    assert (Hcoins : Game.coins g' = survivors Coin.rect me (Game.coins g)).
    { subst g' me. rewrite handle_collisions_passes, Hc4, Hc3, Hc2, Hc1.
      reflexivity. }
    split; [exact Hcoins |]. rewrite Hcoins.
    unfold coin_hits, spritecollide, survivors.
    split; [| split].
    + intros c Hin Hin'. apply filter_In in Hin, Hin'.
      destruct Hin as [_ Ht], Hin' as [_ Hf]. rewrite Ht in Hf. discriminate.
    + intros c Hin Hnot. apply filter_In. split; [exact Hin |].
      destruct (Rect.colliderect me (Coin.rect c)) eqn:E; [| reflexivity].
      exfalso. apply Hnot, filter_In. split; assumption.
    + subst g'. rewrite handle_collisions_passes, Hs4, Hs3, Hs2, Hs1, Hc1.
      fold me. f_equal. apply values_ten_sum.
      apply Forall_filter. exact Hten.
  - intros g rng Hreach.
    destruct (reachable_inv math_sin g rng Hreach) as [_ _ _ Hs Hc _].
    split; assumption.
  - intros f g rng g' rng' Hreach Hno Hstep.
    exact (run_frame_score math_sin f g rng g' rng'
             (reachable_inv math_sin g rng Hreach) Hno Hstep).
Qed.


End Sessions.


Lemma game_over_frame_keeps_simulation_witness :
  exists g',
    Game.run_frame sample_sin held_left_frame sample_game_over
                   sample_game_over_rng
      = Some (g', sample_game_over_rng) /\
    Game.game_over g' = true /\
    Player.rect (Game.player g') = Rect.mk 259 656 32 64 /\
    Player.health (Game.player g') = 0 /\
    Game.enemies g' = Game.enemies sample_game_over.
Proof.
  destruct (game_over_frame_keeps_simulation sample_sin held_left_frame
              sample_game_over sample_game_over_rng)
    as (g' & Hstep & Hgo & Hr & _ & Hh & _ & _ & _ & He & _).
  - reflexivity.
  - intros H. exact H.
  - exists g'. rewrite Hr, Hh, He. repeat split; assumption.
Defined.

Lemma restart_rebuilds_session_witness :
  exists g' rng',
    Game.handle_event (KEYDOWN K_r) sample_game_over sample_game_over_rng
      = Some (g', rng') /\
    Game.num_platforms g' = 5 /\
    length (Game.platforms g') = 5%nat /\
    Game.game_over g' = false /\
    Player.health (Game.player g') = 100 /\
    Player.score (Game.player g') = 0.
Proof.
  destruct (restart_rebuilds_session sample_sin sample_game_over
              sample_game_over_rng)
    as (g' & rng' & Hev & Hn & Hlen & _ & Hgo & Hh & Hs).
  - apply sample_game_over_reachable.
  - reflexivity.
  - exists g', rng'. repeat split; assumption.
Defined.

Lemma health_within_bounds_witness :
  0 <= Player.health (Game.player sample_game_over) <= 100.
Proof.
  apply (health_within_bounds sample_sin sample_game_over
           sample_game_over_rng).
  apply sample_game_over_reachable.
Defined.

Lemma coins_collected_once_score_monotone_witness :
  (let g' := fst (Game.handle_collisions sample_coins sample_rng) in
   Game.coins g' = [Coin.init 600 400] /\
   Player.score (Game.player g') = 20) /\
  0 <= Player.score (Game.player sample_game_over) /\
  exists g' rng',
    Game.run_frame sample_sin held_left_frame sample_game_over
                   sample_game_over_rng = Some (g', rng') /\
    Player.score (Game.player sample_game_over)
      <= Player.score (Game.player g').
Proof.
  destruct (coins_collected_once_score_monotone sample_sin)
    as (Hpass & Hreach & Hframe).
  split; [| split].
  - destruct (Hpass sample_coins sample_rng) as (Hc & _ & _ & Hs).
    + repeat constructor.
    + cbv zeta. rewrite Hc, Hs. split; reflexivity.
  - apply (Hreach sample_game_over sample_game_over_rng).
    apply sample_game_over_reachable.
  - destruct (Game.run_frame sample_sin held_left_frame sample_game_over
                sample_game_over_rng) as [[g' rng'] |] eqn:Hstep;
      [| vm_compute in Hstep; discriminate Hstep].
    exists g', rng'. split; [reflexivity |].
    apply (Hframe held_left_frame sample_game_over sample_game_over_rng
                  g' rng').
    + apply sample_game_over_reachable.
    + intros [_ Hin]. exact Hin.
    + exact Hstep.
Defined.

(** The restart frame as a whole: the space bar is handled on the dead
    session, R rebuilds it, and the same frame already simulates one step
    of the new session, in which the player lands on the platform it was
    created over. *)
Example restart_frame_example :
  option_map
    (fun s => (Game.game_over (fst s),
               Player.health (Game.player (fst s)),
               Player.score (Game.player (fst s)),
               Player.rect (Game.player (fst s)),
               length (Game.platforms (fst s))))
    (Game.run_frame sample_sin restart_frame sample_game_over
                    sample_game_over_rng)
  = Some (false, 100, 0, Rect.mk 259 304 32 64, 5%nat).
Proof. vm_compute. reflexivity. Qed.

(** * Further properties of the code *)

(** ** Patrolling enemies *)

(** One [update] of an enemy of the constructor's size and speed, in terms
    of the patrol invariant. *)
Lemma enemy_update_patrol (lo hi : Z) (e : Enemy.t) :
  lo <= 0 -> WIDTH - 32 <= hi ->
  Enemy.speed e = 2 -> Rect.w (Enemy.rect e) = 32 ->
  (Enemy.direction e = 1 /\ lo - 2 <= Rect.x (Enemy.rect e) <= hi \/
   Enemy.direction e = -1 /\ lo <= Rect.x (Enemy.rect e) <= hi + 2) ->
  let e' := Enemy.update e in
  Enemy.speed e' = 2 /\
  Rect.w (Enemy.rect e') = 32 /\
  Rect.y (Enemy.rect e') = Rect.y (Enemy.rect e) /\
  Rect.h (Enemy.rect e') = Rect.h (Enemy.rect e) /\
  (Enemy.direction e' = 1 /\ lo - 2 <= Rect.x (Enemy.rect e') <= hi \/
   Enemy.direction e' = -1 /\ lo <= Rect.x (Enemy.rect e') <= hi + 2).
Proof.
  intros Hlo Hhi Hs Hw Hd. unfold Enemy.update, WIDTH in *.
  destruct e as [[x y w h] d s]; cbn -[Z.add Z.sub Z.mul] in *. subst s w.
  unfold Rect.right, Rect.left, Rect.set_x; cbn -[Z.add Z.sub Z.mul].
  destruct (Z.gtb_spec (x + 2 * d + 32) 1100);
    destruct (Z.ltb_spec (x + 2 * d) 0);
    cbn -[Z.add Z.sub Z.mul]; repeat split; lia.
Qed.

(** X1.  An enemy created at [x] in [0, hi], for any [hi] that covers the
    on-screen positions, stays on its row, keeps its size, speed and a
    direction of 1 or -1, and never gets further than one 2-pixel step
    outside [0, hi], however many times it is updated. *)
Theorem enemy_patrol_range (hi x y : Z) (n : nat) :
  WIDTH - 32 <= hi -> 0 <= x <= hi ->
  let e := Nat.iter n Enemy.update (Enemy.init x y) in
  -2 <= Rect.x (Enemy.rect e) <= hi + 2 /\
  Rect.y (Enemy.rect e) = y /\
  Rect.w (Enemy.rect e) = 32 /\ Rect.h (Enemy.rect e) = 32 /\
  Enemy.speed e = 2 /\
  (Enemy.direction e = 1 \/ Enemy.direction e = -1).
Proof.
  intros Hhi Hx.
  assert (H : let e := Nat.iter n Enemy.update (Enemy.init x y) in
              Enemy.speed e = 2 /\ Rect.w (Enemy.rect e) = 32 /\
              Rect.y (Enemy.rect e) = y /\ Rect.h (Enemy.rect e) = 32 /\
              (Enemy.direction e = 1 /\ 0 - 2 <= Rect.x (Enemy.rect e) <= hi \/
               Enemy.direction e = -1 /\ 0 <= Rect.x (Enemy.rect e) <= hi + 2)).
  { induction n as [| n IH].
    - cbn. repeat split. left. split; [reflexivity | lia].
    - cbv zeta in IH |- *. rewrite Nat.iter_succ.
      destruct IH as (Hs & Hw & Hy & Hh & Hd).
      destruct (enemy_update_patrol 0 hi _ (Z.le_refl 0) Hhi Hs Hw Hd)
        as (Hs' & Hw' & Hy' & Hh' & Hd').
      repeat split; try assumption; congruence. }
  cbv zeta in *. destruct H as (Hs & Hw & Hy & Hh & Hd).
  split; [destruct Hd as [[_ ?] | [_ ?]]; lia |].
  split; [exact Hy |]. split; [exact Hw |]. split; [exact Hh |].
  split; [exact Hs |].
  destruct Hd as [[Hd _] | [Hd _]]; [left | right]; exact Hd.
Qed.

Lemma enemy_patrol_range_witness :
  let e := Nat.iter 600 Enemy.update (Enemy.init 1000 640) in
  -2 <= Rect.x (Enemy.rect e) <= 1070 /\ Rect.y (Enemy.rect e) = 640.
Proof.
  destruct (enemy_patrol_range 1068 1000 640 600) as (Hx & Hy & _).
  - vm_compute. discriminate.
  - vm_compute. split; discriminate.
  - cbv zeta. split; [exact Hx | exact Hy].
Defined.

(** X2.  An enemy created with [x] in (WIDTH - 32, WIDTH], positions that
    [randint(0, WIDTH)] does return, never walks away from the right
    edge: each update reverses it again, so two updates restore it and it
    only ever alternates between [x] and [x + 2]. *)
Theorem enemy_stuck_at_right_edge (x y : Z) (n : nat) :
  WIDTH - 32 < x <= WIDTH ->
  Enemy.update (Enemy.update (Enemy.init x y)) = Enemy.init x y /\
  Nat.iter (2 * n) Enemy.update (Enemy.init x y) = Enemy.init x y /\
  Rect.x (Enemy.rect (Nat.iter (2 * n + 1) Enemy.update (Enemy.init x y)))
    = x + 2.
Proof.
  intros Hx.
  assert (H1 : Enemy.update (Enemy.init x y)
               = Enemy.mk (Rect.mk (x + 2) y 32 32) (-1) 2).
  { unfold Enemy.update, Enemy.init, Rect.right, Rect.left, Rect.set_x,
      Rect.set_y, Rect.of_size, WIDTH in *. cbn -[Z.add Z.sub Z.mul].
    replace (x + 2 * 1) with (x + 2) by lia.
    destruct (Z.gtb_spec (x + 2 + 32) 1100); [reflexivity | lia]. }
  assert (H2 : Enemy.update (Enemy.update (Enemy.init x y)) = Enemy.init x y).
  { rewrite H1. unfold Enemy.update, Enemy.init, Rect.right, Rect.left,
      Rect.set_x, Rect.set_y, Rect.of_size, WIDTH in *.
    cbn -[Z.add Z.sub Z.mul].
    replace (x + 2 + 2 * -1) with x by lia.
    destruct (Z.gtb_spec (x + 32) 1100); [reflexivity | lia]. }
  assert (H3 : forall k, Nat.iter (2 * k) Enemy.update (Enemy.init x y)
                         = Enemy.init x y).
  { induction k as [| k IH]; [reflexivity |].
    replace (2 * S k)%nat with (S (S (2 * k))) by lia.
    rewrite !Nat.iter_succ, IH. exact H2. }
  split; [exact H2 |]. split; [apply H3 |].
  replace (2 * n + 1)%nat with (S (2 * n)) by lia.
  rewrite Nat.iter_succ, H3, H1. reflexivity.
Qed.

Lemma enemy_stuck_at_right_edge_witness :
  Nat.iter 1000 Enemy.update (Enemy.init 1100 640) = Enemy.init 1100 640.
Proof.
  apply (enemy_stuck_at_right_edge 1100 640 500).
  vm_compute. split; [reflexivity | discriminate].
Defined.

(** ** Moving platforms *)

Lemma platform_update_swing (p : Platform.t) :
  Platform.moving p = true -> Platform.speed p = 2 ->
  (Platform.direction p = 1 /\
   -102 <= Rect.x (Platform.rect p) - Platform.start_x p <= 100 \/
   Platform.direction p = -1 /\
   -100 <= Rect.x (Platform.rect p) - Platform.start_x p <= 102) ->
  let p' := Platform.update p in
  Platform.moving p' = true /\ Platform.speed p' = 2 /\
  Platform.start_x p' = Platform.start_x p /\
  Rect.y (Platform.rect p') = Rect.y (Platform.rect p) /\
  Rect.w (Platform.rect p') = Rect.w (Platform.rect p) /\
  Rect.h (Platform.rect p') = Rect.h (Platform.rect p) /\
  (Platform.direction p' = 1 /\
   -102 <= Rect.x (Platform.rect p') - Platform.start_x p' <= 100 \/
   Platform.direction p' = -1 /\
   -100 <= Rect.x (Platform.rect p') - Platform.start_x p' <= 102).
Proof.
  intros Hm Hs Hd. unfold Platform.update. rewrite Hm.
  destruct p as [[x y w h] m sx d s]; cbn -[Z.add Z.sub Z.mul Z.abs] in *.
  subst s. unfold Rect.set_x; cbn -[Z.add Z.sub Z.mul Z.abs].
  destruct (Z.gtb_spec (Z.abs (x + 2 * d - sx)) 100);
    cbn -[Z.add Z.sub Z.mul Z.abs]; repeat split; lia.
Qed.

(** X3.  A moving platform swings around the position it was created at:
    after any number of updates it is within 102 pixels of it (100, plus
    the 2-pixel step on which the turn is detected), at the same height
    and of the same size.  A fixed platform is never changed. *)
Theorem platform_swing_range (x y width height : Z) (n : nat) :
  (let p := Nat.iter n Platform.update
              (Platform.init x y width height true) in
   -102 <= Rect.x (Platform.rect p) - x <= 102 /\
   Rect.y (Platform.rect p) = y /\
   Rect.w (Platform.rect p) = width /\
   Rect.h (Platform.rect p) = height) /\
  Nat.iter n Platform.update (Platform.init x y width height false)
    = Platform.init x y width height false.
Proof.
  split.
  - assert (H : let p := Nat.iter n Platform.update
                           (Platform.init x y width height true) in
                Platform.moving p = true /\ Platform.speed p = 2 /\
                Platform.start_x p = x /\
                Rect.y (Platform.rect p) = y /\
                Rect.w (Platform.rect p) = width /\
                Rect.h (Platform.rect p) = height /\
                (Platform.direction p = 1 /\
                 -102 <= Rect.x (Platform.rect p) - Platform.start_x p <= 100
                 \/
                 Platform.direction p = -1 /\
                 -100 <= Rect.x (Platform.rect p) - Platform.start_x p <= 102)).
    { induction n as [| n IH].
      - cbn. repeat split. left. split; [reflexivity | lia].
      - cbv zeta in IH |- *. rewrite Nat.iter_succ.
        destruct IH as (Hm & Hs & Hx & Hy & Hw & Hh & Hd).
        destruct (platform_update_swing _ Hm Hs Hd)
          as (Hm' & Hs' & Hx' & Hy' & Hw' & Hh' & Hd').
        repeat split; try assumption; congruence. }
    cbv zeta in *. destruct H as (_ & _ & Hx & Hy & Hw & Hh & Hd).
    rewrite Hx in Hd.
    split; [destruct Hd as [[_ ?] | [_ ?]]; lia |].
    split; [exact Hy |]. split; [exact Hw | exact Hh].
  - induction n as [| n IH]; [reflexivity |].
    rewrite Nat.iter_succ, IH. reflexivity.
Qed.

(** ** Level setup *)

Lemma make_platform_spec (ph sp i : Z) (acc : list Platform.t)
    (rng : Random.t) :
  ph = HEIGHT - 40 ->
  exists p,
    fst (Game.make_platform ph sp i acc rng) = acc ++ [p] /\
    platform_laid_out sp i p /\
    (Random.used (snd (Game.make_platform ph sp i acc rng))
     = Random.used rng + (if i >? 0 then 3 else 2))%nat.
Proof.
  intros ->. unfold Game.make_platform, bind, ret.
  pose proof (randint_range 80 150 rng ltac:(lia)) as Hw.
  destruct (Random.randint 80 150 rng) as [width rng1] eqn:E1.
  assert (U1 : Random.used rng1 = S (Random.used rng)).
  { unfold Random.randint, Random.raw in E1. injection E1 as _ <-.
    reflexivity. }
  cbn [fst] in Hw.
  pose proof (randint_range 0 (WIDTH - width) rng1
                ltac:(unfold WIDTH; lia)) as Hx.
  destruct (Random.randint 0 (WIDTH - width) rng1) as [x rng2] eqn:E2.
  assert (U2 : Random.used rng2 = S (Random.used rng1)).
  { unfold Random.randint, Random.raw in E2. injection E2 as _ <-.
    reflexivity. }
  cbn [fst] in Hx.
  destruct (Z.gtb_spec i 0) as [Hi | Hi].
  - unfold Random.choice_bool, Random.raw. cbn [fst snd Random.used].
    eexists. split; [reflexivity |]. split; [| lia].
    unfold platform_laid_out, Platform.init, Rect.left, Rect.right,
      Rect.set_x, Rect.set_y, Rect.of_size.
    destruct (_ =? 0); cbn -[Z.add Z.sub Z.mul];
      repeat split; try lia; discriminate.
  - unfold ret. cbn [fst snd].
    eexists. split; [reflexivity |]. split; [| lia].
    unfold platform_laid_out, Platform.init, Rect.left, Rect.right,
      Rect.set_x, Rect.set_y, Rect.of_size.
    cbn -[Z.add Z.sub Z.mul]. repeat split; try lia; discriminate.
Qed.

Lemma make_platforms_spec (sp : Z) (l : list Z) :
  forall (acc : list Platform.t) (rng : Random.t),
  exists new,
    fst (for_each (Game.make_platform (HEIGHT - 40) sp) l acc rng)
      = acc ++ new /\
    Forall2 (platform_laid_out sp) l new.
Proof.
  induction l as [| i l IH]; intros acc rng; cbn [for_each].
  - exists []. unfold ret. cbn. rewrite app_nil_r. split; constructor.
  - unfold bind.
    destruct (make_platform_spec (HEIGHT - 40) sp i acc rng eq_refl)
      as (p & Hp & Hlaid & _).
    destruct (Game.make_platform (HEIGHT - 40) sp i acc rng) as [acc1 rng1].
    cbn [fst] in Hp. subst acc1.
    destruct (IH (acc ++ [p]) rng1) as (new & Hnew & Hall).
    exists (p :: new). rewrite Hnew, <- app_assoc. cbn.
    split; [reflexivity | constructor; assumption].
Qed.

Lemma make_enemies_spec (l : list Z) :
  forall (acc : list Enemy.t) (rng : Random.t),
  exists new,
    fst (for_each Game.make_enemy l acc rng) = acc ++ new /\
    length new = length l /\
    Forall enemy_created new.
Proof.
  induction l as [| i l IH]; intros acc rng; cbn [for_each].
  - exists []. unfold ret. cbn. rewrite app_nil_r.
    repeat split; constructor.
  - unfold bind, Game.make_enemy at 1. unfold bind, ret.
    pose proof (randint_range 0 WIDTH rng ltac:(unfold WIDTH; lia)) as Hx.
    destruct (Random.randint 0 WIDTH rng) as [x rng1]. cbn [fst] in Hx.
    destruct (IH (acc ++ [Enemy.init x (HEIGHT - 80)]) rng1)
      as (new & Hnew & Hlen & Hall).
    exists (Enemy.init x (HEIGHT - 80) :: new).
    rewrite Hnew, <- app_assoc. cbn.
    split; [reflexivity |]. split; [lia |].
    constructor; [| assumption]. exists x. split; [exact Hx | reflexivity].
Qed.

(** The layout built by the constructor, for reuse. *)
Lemma init_layout (n : Z) (rng0 rng : Random.t) (g : Game.t) :
  Game.init n rng0 = Some (g, rng) ->
  let m := Z.min n MAX_PLATFORMS in
  Game.num_platforms g = m /\
  Forall2 (platform_laid_out ((HEIGHT - 200) / m)) (range m)
          (Game.platforms g) /\
  length (Game.enemies g) = 3%nat /\
  Forall enemy_created (Game.enemies g) /\
  Game.coins g = [] /\ Game.powerups g = [].
Proof.
  intros Hinit m. unfold Game.init, Game.setup_level in Hinit.
  cbn [Game.num_platforms Game.with_player Game.platforms Game.enemies]
    in Hinit. fold m in Hinit.
  destruct (m =? 0); [discriminate |].
  destruct (make_platforms_spec ((HEIGHT - 200) / m) (range m) [] rng0)
    as (ps & Hps & Hlaid).
  destruct (for_each (Game.make_platform (HEIGHT - 40) ((HEIGHT - 200) / m))
                     (range m) [] rng0) as [ps' rng1].
  cbn [fst app] in Hps. subst ps'.
  destruct (make_enemies_spec (range 3) [] rng1) as (es & Hes & Hlen & Hall).
  destruct (for_each Game.make_enemy (range 3) [] rng1) as [es' rng2].
  cbn [fst app] in Hes. subst es'.
  injection Hinit as <- _. cbn.
  repeat split; assumption.
Qed.

(** X4.  What the constructor builds for a platform count [n] other than
    0, with [m = min(n, 15)]: platform [i], for each [i] of [range(m)], is
    20 high, 80 to 150 wide, horizontally inside the screen, at height
    [680 - i * (520 // m)], and platform 0 is fixed; there are exactly
    three enemies, on the row [y = 640] with [x] in [0, WIDTH]; and no
    coin or powerup yet. *)
Theorem setup_level_layout (n : Z) (rng0 rng : Random.t) (g : Game.t) :
  Game.init n rng0 = Some (g, rng) ->
  let m := Z.min n MAX_PLATFORMS in
  Game.num_platforms g = m /\
  Forall2 (platform_laid_out ((HEIGHT - 200) / m)) (range m)
          (Game.platforms g) /\
  length (Game.enemies g) = 3%nat /\
  Forall enemy_created (Game.enemies g) /\
  Game.coins g = [] /\ Game.powerups g = [].
Proof. exact (init_layout n rng0 rng g). Qed.

Lemma setup_level_layout_witness :
  exists g rng,
    Game.init 5 sample_rng = Some (g, rng) /\
    Game.num_platforms g = 5 /\
    length (Game.enemies g) = 3%nat /\
    Game.coins g = [].
Proof.
  destruct (Game.init 5 sample_rng) as [[g rng] |] eqn:Hinit;
    [| vm_compute in Hinit; discriminate Hinit].
  destruct (setup_level_layout 5 sample_rng rng g Hinit)
    as (Hn & _ & Hlen & _ & Hc & _).
  exists g, rng. repeat split; assumption.
Defined.

Lemma range_bounds (m i : Z) : In i (range m) -> 0 <= i < m.
Proof.
  unfold range. intros Hin. apply in_map_iff in Hin.
  destruct Hin as (k & <- & Hk). apply in_seq in Hk. lia.
Qed.

Lemma Forall2_right {A B : Type} (P : A -> B -> Prop) (Q : B -> Prop)
    (l : list A) (l' : list B) :
  (forall a b, In a l -> P a b -> Q b) -> Forall2 P l l' -> Forall Q l'.
Proof.
  intros HPQ H. induction H as [| a b l l' Hab _ IH]; constructor.
  - apply (HPQ a b); [now left | exact Hab].
  - apply IH. intros a' b' Hin. apply HPQ. now right.
Qed.

(** X5.  For a positive platform count, every platform is created fully
    on screen: between the left and right edges, with its top edge at
    [y >= 194] and its bottom edge at [y <= 700]. *)
Theorem platforms_created_on_screen
    (n : Z) (rng0 rng : Random.t) (g : Game.t) :
  0 < n ->
  Game.init n rng0 = Some (g, rng) ->
  Forall (fun p =>
            0 <= Rect.left (Platform.rect p) /\
            Rect.right (Platform.rect p) <= WIDTH /\
            194 <= Rect.top (Platform.rect p) /\
            Rect.bottom (Platform.rect p) <= HEIGHT - 20)
         (Game.platforms g).
Proof.
  intros Hn Hinit.
  destruct (init_layout n rng0 rng g Hinit) as (_ & Hlaid & _).
  cbv zeta in Hlaid. set (m := Z.min n MAX_PLATFORMS) in *.
  assert (Hm : 1 <= m <= 15) by (subst m; unfold MAX_PLATFORMS; lia).
  refine (Forall2_right _ _ _ _ _ Hlaid). intros i p Hin Hp.
  apply range_bounds in Hin.
  destruct Hp as (Hy & Hh & _ & Hl & Hr & _).
  unfold Rect.top, Rect.bottom, HEIGHT in *. rewrite Hy, Hh.
  set (s := (720 - 200) / m) in *.
  assert (Hs : m * s <= 520 < m * s + m).
  { subst s. pose proof (Z.div_mod 520 m ltac:(lia)) as Hd.
    pose proof (Z.mod_pos_bound 520 m ltac:(lia)) as Hb.
    change (720 - 200) with 520. lia. }
  assert (Hs34 : 34 <= s) by nia.
  repeat split; try assumption; nia.
Qed.

Lemma platforms_created_on_screen_witness :
  exists g rng,
    Game.init 15 tower_rng = Some (g, rng) /\
    Forall (fun p => 194 <= Rect.top (Platform.rect p)) (Game.platforms g).
Proof.
  destruct (Game.init 15 tower_rng) as [[g rng] |] eqn:Hinit;
    [| vm_compute in Hinit; discriminate Hinit].
  exists g, rng. split; [reflexivity |].
  assert (Hpos : 0 < 15) by reflexivity.
  pose proof (platforms_created_on_screen 15 tower_rng rng g Hpos Hinit) as H.
  apply Forall_forall. intros p Hp.
  rewrite Forall_forall in H. exact (proj1 (proj2 (proj2 (H p Hp)))).
Defined.

(** X6.  The constructor raises (the division by the platform count)
    exactly when the count is 0.  A negative count builds a session with
    that count and no platform at all; a count above 15 is cut to 15. *)
Theorem constructor_edge_cases (n : Z) (rng0 : Random.t) :
  (Game.init n rng0 = None <-> n = 0) /\
  (n < 0 ->
   exists g rng, Game.init n rng0 = Some (g, rng) /\
     Game.num_platforms g = n /\ Game.platforms g = []) /\
  (MAX_PLATFORMS < n ->
   exists g rng, Game.init n rng0 = Some (g, rng) /\
     Game.num_platforms g = MAX_PLATFORMS /\
     length (Game.platforms g) = 15%nat).
Proof.
  assert (Hiff : Z.min n MAX_PLATFORMS = 0 <-> n = 0).
  { unfold MAX_PLATFORMS. lia. }
  split; [| split].
  - split.
    + intros Hnone. apply Hiff.
      destruct (Z.eq_dec (Z.min n MAX_PLATFORMS) 0) as [E | Hnz];
        [exact E |].
      destruct (init_spec n rng0 Hnz) as (g & rng & Hsome & _).
      rewrite Hsome in Hnone. discriminate.
    + intros ->. reflexivity.
  - intros Hneg.
    destruct (init_spec n rng0) as (g & rng & Hsome & Hn & Hlen & _).
    { unfold MAX_PLATFORMS. lia. }
    exists g, rng. split; [exact Hsome |].
    replace (Z.min n MAX_PLATFORMS) with n in * by (unfold MAX_PLATFORMS; lia).
    split; [exact Hn |].
    assert (Hz : Z.to_nat n = 0%nat) by lia. rewrite Hz in Hlen.
    destruct (Game.platforms g); [reflexivity | discriminate].
  - intros Hbig.
    destruct (init_spec n rng0) as (g & rng & Hsome & Hn & Hlen & _).
    { unfold MAX_PLATFORMS in *. lia. }
    exists g, rng. split; [exact Hsome |].
    replace (Z.min n MAX_PLATFORMS) with MAX_PLATFORMS in * by lia.
    split; [exact Hn | exact Hlen].
Qed.

Lemma constructor_edge_cases_witness :
  Game.init 0 sample_rng = None /\
  (exists g rng, Game.init (-3) sample_rng = Some (g, rng) /\
                 Game.platforms g = []) /\
  (exists g rng, Game.init 40 sample_rng = Some (g, rng) /\
                 Game.num_platforms g = 15).
Proof.
  split; [| split].
  - apply (proj1 (constructor_edge_cases 0 sample_rng)). reflexivity.
  - destruct (proj1 (proj2 (constructor_edge_cases (-3) sample_rng)))
      as (g & rng & H & _ & Hp); [reflexivity |].
    exists g, rng. split; assumption.
  - destruct (proj2 (proj2 (constructor_edge_cases 40 sample_rng)))
      as (g & rng & H & Hn & _); [reflexivity |].
    exists g, rng. split; assumption.
Defined.

(** ** The playfield between frames *)

Lemma same_simulation_field (g g' : Game.t) :
  same_simulation g g' -> field_inv g -> field_inv g'.
Proof.
  intros (Hh & Hs & Hr & Hgo & _ & Hn & Hp & Hc & He & _)
         [F1 F2 F3 F4 F5 F6 F7 F8].
  constructor; rewrite ?Hh, ?Hs, ?Hr, ?Hgo, ?Hn, ?Hp, ?Hc, ?He; assumption.
Qed.

Lemma enemy_created_patrols (e : Enemy.t) : enemy_created e -> enemy_patrols e.
Proof.
  intros (x & Hx & ->). unfold enemy_patrols, Enemy.init. cbn.
  repeat split. left. split; [reflexivity | lia].
Qed.

Lemma enemy_update_patrols (e : Enemy.t) :
  enemy_patrols e -> enemy_patrols (Enemy.update e).
Proof.
  intros (Hy & Hw & Hh & Hs & Hd).
  assert (Hd0 : Enemy.direction e = 1 /\
                0 - 2 <= Rect.x (Enemy.rect e) <= WIDTH \/
                Enemy.direction e = -1 /\
                0 <= Rect.x (Enemy.rect e) <= WIDTH + 2) by exact Hd.
  destruct (enemy_update_patrol 0 WIDTH e (Z.le_refl 0)
              ltac:(unfold WIDTH; lia) Hs Hw Hd0)
    as (Hs' & Hw' & Hy' & Hh' & Hd').
  unfold enemy_patrols. rewrite Hy', Hh'.
  split; [exact Hy |]. split; [exact Hw' |]. split; [exact Hh |].
  split; [exact Hs' | exact Hd'].
Qed.

Lemma platform_update_swings (p : Platform.t) :
  platform_swings p -> platform_swings (Platform.update p).
Proof.
  intros (Hh & Hw & Hy & [(Hm & Hx) | (Hm & Hs & Hs0 & Hs1 & Hd)]).
  - unfold Platform.update. rewrite Hm. cbv beta iota.
    unfold platform_swings.
    split; [exact Hh |]. split; [exact Hw |]. split; [exact Hy |].
    left. split; [exact Hm | exact Hx].
  - destruct (platform_update_swing p Hm Hs Hd)
      as (Hm' & Hs' & Hx' & Hy' & Hw' & Hh' & Hd').
    unfold platform_swings. rewrite Hy', Hw', Hh'. rewrite Hx' in Hd' |- *.
    split; [exact Hh |]. split; [exact Hw |]. split; [exact Hy |].
    right. split; [exact Hm' |]. split; [exact Hs' |].
    split; [exact Hs0 |]. split; [exact Hs1 | exact Hd'].
Qed.

Lemma laid_out_swings (m i : Z) (p : Platform.t) :
  1 <= m <= 15 -> 0 <= i < m ->
  platform_laid_out ((HEIGHT - 200) / m) i p -> platform_swings p.
Proof.
  intros Hm Hi (Hy & Hh & Hw & Hl & Hr & _ & Hmv).
  unfold Rect.left, Rect.right, HEIGHT in *.
  set (s := (720 - 200) / m) in *.
  assert (Hs : m * s <= 520 < m * s + m).
  { subst s. pose proof (Z.div_mod 520 m ltac:(lia)) as Hd.
    pose proof (Z.mod_pos_bound 520 m ltac:(lia)) as Hb.
    change (720 - 200) with 520. lia. }
  assert (Hs34 : 34 <= s) by nia.
  unfold platform_swings, HEIGHT. rewrite Hy, Hh.
  split; [reflexivity |]. split; [exact Hw |]. split; [nia |].
  destruct (Platform.moving p) eqn:E.
  - right. destruct (Hmv eq_refl) as (Hsx & Hd & Hsp).
    split; [reflexivity |]. split; [exact Hsp |]. rewrite Hsx.
    split; [lia |]. split; [lia |]. left. split; [exact Hd | lia].
  - left. split; [reflexivity |]. split; [exact Hl | exact Hr].
Qed.

Lemma init_field (n : Z) (rng0 rng : Random.t) (g : Game.t) :
  Game.init n rng0 = Some (g, rng) -> field_inv g.
Proof.
  intros Hinit.
  destruct (init_layout n rng0 rng g Hinit)
    as (Hn & Hlaid & Hlen & Hes & Hc & _).
  cbv zeta in *. set (m := Z.min n MAX_PLATFORMS) in *.
  assert (Hnz : m <> 0).
  { intros E. unfold Game.init, Game.setup_level in Hinit.
    cbn [Game.num_platforms Game.with_player] in Hinit. fold m in Hinit.
    rewrite E in Hinit. discriminate. }
  destruct (init_spec n rng0 Hnz) as (g0 & r0 & H0 & _ & Hpl & _ & Hgo & Hp & _).
  rewrite H0 in Hinit. injection Hinit as -> ->.
  constructor.
  - rewrite Hn. exact Hpl.
  - assert (Hm15 : m <= 15) by (subst m; unfold MAX_PLATFORMS; lia).
    refine (Forall2_right _ _ _ _ _ Hlaid). intros i p Hin Hlp.
    apply range_bounds in Hin.
    apply (laid_out_swings m i p); [lia | exact Hin | exact Hlp].
  - rewrite Hlen. lia.
  - apply Forall_forall. intros e He. apply enemy_created_patrols.
    rewrite Forall_forall in Hes. exact (Hes e He).
  - rewrite Hc. constructor.
  - rewrite Hp. vm_compute. repeat split; discriminate.
  - rewrite Hp. reflexivity.
  - rewrite Hgo. discriminate.
Qed.

Lemma spawn_coin_field (now : Z) (g : Game.t) (rng : Random.t) :
  field_inv g -> field_inv (fst (Game.spawn_coin now g rng)).
Proof.
  intros [F1 F2 F3 F4 F5 F6 F7 F8]. unfold Game.spawn_coin, bind, ret.
  destruct (now - Game.last_coin_spawn g >? COIN_SPAWN_RATE);
    [| constructor; assumption].
  pose proof (randint_range 0 WIDTH rng ltac:(unfold WIDTH; lia)) as Hx.
  destruct (Random.randint 0 WIDTH rng) as [x r1]. cbn [fst] in Hx.
  pose proof (randint_range (HEIGHT / 2) (HEIGHT - 100) r1
                ltac:(vm_compute; discriminate)) as Hy.
  destruct (Random.randint (HEIGHT / 2) (HEIGHT - 100) r1) as [y r2].
  cbn [fst] in Hy.
  destruct (Random.random r2) as [c r3].
  assert (Hcoins : Forall coin_placed (Game.coins g ++ [Coin.init x y])).
  { apply Forall_app. split; [assumption |].
    constructor; [| constructor]. exists x, y. repeat split; tauto. }
  destruct (Qltb c HEALTH_POWERUP_CHANCE); constructor; assumption.
Qed.

Lemma player_update_size (now : Z) (p : Player.t) :
  Rect.w (Player.rect (Player.update now p)) = Rect.w (Player.rect p) /\
  Rect.h (Player.rect (Player.update now p)) = Rect.h (Player.rect p).
Proof.
  unfold Player.update, Player.clamp_bottom, Player.clamp_right,
    Player.clamp_left, Player.move, Player.animate.
  case_ifs; split; reflexivity.
Qed.

Section FieldSteps.

Variable math_sin : Q -> Q.

Lemma update_sprites_field (now : Z) (g : Game.t) :
  field_inv g -> field_inv (Game.update_sprites math_sin now g).
Proof.
  intros [F1 F2 F3 F4 F5 (Fw & Fh & _) F7 F8].
  destruct (player_update_keeps now (Game.player g)) as [Hh Hs].
  destruct (player_update_size now (Game.player g)) as [Hw' Hh'].
  pose proof (update_keeps_left_right_bottom now (Game.player g)
                ltac:(rewrite Fw; unfold WIDTH; lia)) as Hb.
  constructor; cbn [Game.update_sprites Game.platforms Game.enemies
    Game.coins Game.player Game.num_platforms Game.game_over].
  - rewrite length_map. exact F1.
  - apply Forall_map. revert F2. apply Forall_impl.
    exact platform_update_swings.
  - rewrite length_map. exact F3.
  - apply Forall_map. revert F4. apply Forall_impl.
    exact enemy_update_patrols.
  - exact F5.
  - rewrite Hw', Hh'. split; [exact Fw |]. split; [exact Fh | exact Hb].
  - rewrite Hs. exact F7.
  - rewrite Hh. exact F8.
Qed.

End FieldSteps.

Lemma lowest_of_in (first : Platform.t) (rest : list Platform.t) :
  In (Game.lowest_of (first :: rest) first) (first :: rest).
Proof.
  destruct (lowest_of_hits first rest) as (b & a & Hl & _).
  rewrite Hl at 2. apply in_or_app. right. now left.
Qed.

Lemma collide_platforms_field (g : Game.t) :
  field_inv g -> field_inv (Game.collide_platforms g).
Proof.
  intros Hf. pose proof Hf as [F1 F2 F3 F4 F5 (Fw & Fh & Fl & Fr & Fb) F7 F8].
  unfold Game.collide_platforms.
  destruct (spritecollide Platform.rect (Player.rect (Game.player g))
              (Game.platforms g)) as [| first rest] eqn:Hhits;
    [exact Hf |].
  destruct (Qgtb (Player.velocity_y (Game.player g)) 0); [| exact Hf].
  pose proof (lowest_of_in first rest) as Hin. rewrite <- Hhits in Hin at 2.
  apply filter_In in Hin. destruct Hin as [Hin _].
  rewrite Forall_forall in F2. destruct (F2 _ Hin) as (_ & _ & Hy & _).
  set (lowest := Game.lowest_of (first :: rest) first) in *.
  clearbody lowest.
  constructor; cbn -[Z.add Z.sub]; try assumption.
  - rewrite Forall_forall. exact F2.
  - unfold Rect.left, Rect.right, Rect.bottom, Rect.top, Rect.set_bottom,
      Rect.set_y, HEIGHT in *. cbn -[Z.add Z.sub].
    repeat split; try assumption; lia.
Qed.

Lemma for_each_invariant {A S : Type} (P : S -> Prop)
    (body : A -> S -> Rand S) (l : list A) :
  (forall a s rng, In a l -> P s -> P (fst (body a s rng))) ->
  forall s rng, P s -> P (fst (for_each body l s rng)).
Proof.
  induction l as [| a l IH]; intros Hbody s rng Hs; cbn [for_each].
  - exact Hs.
  - unfold bind. pose proof (Hbody a s rng (or_introl eq_refl) Hs) as H1.
    destruct (body a s rng) as [s1 rng1]. cbn [fst] in H1.
    apply IH; [| exact H1].
    intros a' s' rng' Hin. apply Hbody. now right.
Qed.

Lemma collect_coin_field (c : Coin.t) (g : Game.t) (rng : Random.t) :
  Coin.value c = 10 -> field_inv g ->
  field_inv (fst (Game.collect_coin c g rng)).
Proof.
  intros Hv [F1 F2 F3 F4 F5 F6 F7 F8].
  assert (Hscore : (Player.score (Game.player g) + 10) mod 10 = 0).
  { rewrite <- Zplus_mod_idemp_l, F7. reflexivity. }
  unfold Game.collect_coin, bind, ret. rewrite Hv.
  cbn [Game.player Game.with_player Player.score Player.with_score
       Game.enemies].
  destruct (_ >? _).
  - destruct (Z.ltb_spec (Z.of_nat (length (Game.enemies g))) MAX_ENEMIES)
      as [Hroom | Hfull].
    + pose proof (randint_range 0 WIDTH rng ltac:(unfold WIDTH; lia)) as Hx.
      destruct (Random.randint 0 WIDTH rng) as [x r1]. cbn [fst] in Hx.
      constructor; cbn; try assumption.
      * rewrite length_app. cbn. unfold MAX_ENEMIES in Hroom. lia.
      * apply Forall_app. split; [assumption |].
        constructor; [| constructor]. apply enemy_created_patrols.
        exists x. split; [exact Hx | reflexivity].
    + constructor; cbn; assumption.
  - constructor; cbn; assumption.
Qed.

Lemma coin_placed_value (c : Coin.t) : coin_placed c -> Coin.value c = 10.
Proof. intros (x & y & _ & _ & ->). reflexivity. Qed.

Lemma collide_coins_field (g : Game.t) (rng : Random.t) :
  field_inv g -> field_inv (fst (Game.collide_coins g rng)).
Proof.
  intros Hf. pose proof Hf as [F1 F2 F3 F4 F5 F6 F7 F8].
  unfold Game.collide_coins.
  apply (for_each_invariant field_inv).
  - intros c s r Hin. apply collect_coin_field.
    apply filter_In in Hin. destruct Hin as [Hin _].
    rewrite Forall_forall in F5. exact (coin_placed_value c (F5 c Hin)).
  - constructor; cbn; try assumption. now apply Forall_filter.
Qed.

Lemma heal_loop_field (hits : list HealthPowerup.t) :
  forall g : Game.t,
  Game.game_over g = false -> field_inv g ->
  field_inv (fold_left (fun g _ => Game.heal g) hits g).
Proof.
  induction hits as [| h hits IH]; intros g Hgo Hf; cbn [fold_left].
  - exact Hf.
  - apply IH; [exact Hgo |]. destruct Hf as [F1 F2 F3 F4 F5 F6 F7 F8].
    constructor; cbn; try assumption. rewrite Hgo. discriminate.
Qed.

Lemma collide_powerups_field (g : Game.t) :
  Game.game_over g = false -> field_inv g ->
  field_inv (Game.collide_powerups g).
Proof.
  intros Hgo Hf. unfold Game.collide_powerups.
  apply heal_loop_field; [exact Hgo |].
  destruct Hf as [F1 F2 F3 F4 F5 F6 F7 F8]. constructor; assumption.
Qed.

Lemma collide_enemies_field (g : Game.t) :
  session_inv g -> Game.game_over g = false -> field_inv g ->
  field_inv (Game.collide_enemies g).
Proof.
  intros [I1 I2 I3 _ _ _] Hgo Hf. specialize (I3 Hgo).
  pose proof Hf as [F1 F2 F3 F4 F5 F6 F7 F8].
  unfold Game.collide_enemies.
  destruct (spritecollide _ _ _); [exact Hf |].
  cbn [Game.player Game.with_player Player.health Player.with_health].
  assert (Hten : 10 <= Player.health (Game.player g)).
  { destruct (proj1 (Z.mod_divide (Player.health (Game.player g)) 10
                       ltac:(lia)) I2) as [k Hk]. lia. }
  destruct (Z.leb_spec (Player.health (Game.player g) - 10) 0);
    constructor; cbn; try assumption.
  - intros _. lia.
  - rewrite Hgo. discriminate.
Qed.

Lemma handle_collisions_field (g : Game.t) (rng : Random.t) :
  session_inv g -> Game.game_over g = false -> field_inv g ->
  field_inv (fst (Game.handle_collisions g rng)).
Proof.
  intros Hinv Hgo Hf. rewrite handle_collisions_passes.
  destruct (collide_platforms_scores_only g) as (S1 & _ & _).
  pose proof (scores_only_inv _ _ S1 Hinv) as I1.
  pose proof (collide_coins_scores_only (Game.collide_platforms g) rng
                (inv_coins _ I1)) as S2.
  pose proof (scores_only_inv _ _ S2 I1) as I2.
  assert (Hgo2 : Game.game_over
                   (fst (Game.collide_coins (Game.collide_platforms g) rng))
                 = false).
  { destruct S1 as (_ & _ & G1 & _), S2 as (_ & _ & G2 & _). congruence. }
  set (g2 := fst (Game.collide_coins (Game.collide_platforms g) rng)) in *.
  destruct (collide_powerups_spec g2) as (P1 & P2 & _ & P4 & P5 & P6 & _).
  destruct (P1 (inv_health_range _ I2) (inv_health_tens _ I2)) as [Hr Hm].
  apply collide_enemies_field.
  - pose proof I2 as [J1 J2 J3 J4 J5 J6].
    constructor; rewrite ?P2, ?P4, ?P5, ?P6; auto; try lia.
    intros _. specialize (J3 Hgo2). lia.
  - rewrite P4. exact Hgo2.
  - apply collide_powerups_field; [exact Hgo2 |].
    apply collide_coins_field, collide_platforms_field, Hf.
Qed.

Section FieldSession.

Variable math_sin : Q -> Q.

Lemma update_field (f : Frame) (g : Game.t) (rng : Random.t) :
  session_inv g -> Game.game_over g = false -> field_inv g ->
  field_inv (fst (Game.update math_sin f g rng)).
Proof.
  intros Hinv Hgo Hf. unfold Game.update, bind.
  pose proof (spawn_coin_scores_only (ticks_spawn f) g rng) as S1.
  pose proof (spawn_coin_field (ticks_spawn f) g rng Hf) as F1.
  destruct (Game.spawn_coin (ticks_spawn f) g rng) as [g1 rng1].
  cbn [fst] in S1, F1.
  pose proof (update_sprites_scores_only math_sin (ticks_player f) g1) as S2.
  pose proof (scores_only_trans _ _ _ S1 S2) as S.
  apply handle_collisions_field.
  - exact (scores_only_inv _ _ S Hinv).
  - destruct S as (_ & _ & G & _). congruence.
  - apply update_sprites_field, F1.
Qed.

Lemma handle_event_field (ev : Event) (g : Game.t) (rng : Random.t)
    (g' : Game.t) (rng' : Random.t) :
  field_inv g -> Game.handle_event ev g rng = Some (g', rng') ->
  field_inv g'.
Proof.
  intros Hf Hev.
  destruct (Bool.bool_dec (Game.game_over g) true) as [Hgo | Hgo].
  - destruct ev as [| [| | | |] |].
    3: { cbn in Hev. rewrite Hgo in Hev. exact (init_field _ _ _ _ Hev). }
    all: match type of Hev with
         | Game.handle_event ?e ?g0 ?r0 = _ =>
             destruct (handle_event_keeps e g0 r0) as (g1 & H1 & Hs);
             [intros [_ E]; discriminate E |];
             rewrite H1 in Hev; injection Hev as <- _;
             exact (same_simulation_field _ _ Hs Hf)
         end.
  - destruct (handle_event_keeps ev g rng) as (g1 & H1 & Hs).
    { intros [E _]. contradiction. }
    rewrite H1 in Hev. injection Hev as <- _.
    exact (same_simulation_field _ _ Hs Hf).
Qed.

Lemma handle_queue_field (evs : list Event) :
  forall (g : Game.t) (rng : Random.t) (g' : Game.t) (rng' : Random.t),
  field_inv g -> Game.handle_queue evs g rng = Some (g', rng') ->
  field_inv g'.
Proof.
  induction evs as [| ev evs IH]; intros g rng g' rng' Hf Hq;
    cbn [Game.handle_queue] in Hq.
  - injection Hq as <- _. exact Hf.
  - destruct (Game.handle_event ev g rng) as [[g1 rng1] |] eqn:Hev;
      [| discriminate].
    exact (IH g1 rng1 g' rng' (handle_event_field _ _ _ _ _ Hf Hev) Hq).
Qed.

Lemma handle_queue_session (evs : list Event) (g : Game.t) (rng : Random.t)
    (g' : Game.t) (rng' : Random.t) :
  session_inv g -> Game.handle_queue evs g rng = Some (g', rng') ->
  session_inv g'.
Proof.
  intros Hinv Hq.
  destruct (handle_queue_inv evs g rng Hinv) as (g1 & r1 & H1 & I1).
  rewrite H1 in Hq. injection Hq as <- _. exact I1.
Qed.

Lemma run_frame_field (f : Frame) (g : Game.t) (rng : Random.t)
    (g' : Game.t) (rng' : Random.t) :
  session_inv g -> field_inv g ->
  Game.run_frame math_sin f g rng = Some (g', rng') -> field_inv g'.
Proof.
  intros Hinv Hf Hstep. unfold Game.run_frame, Game.handle_events in Hstep.
  destruct (Game.handle_queue (events f) g rng) as [[g1 rng1] |] eqn:Hq;
    [| discriminate].
  pose proof (handle_queue_field _ _ _ _ _ Hf Hq) as F1.
  pose proof (handle_queue_session _ _ _ _ _ Hinv Hq) as I1.
  pose proof (handle_keys_keeps f g1) as Hs.
  pose proof (same_simulation_field _ _ Hs F1) as F2.
  pose proof (same_simulation_inv _ _ Hs I1) as I2.
  destruct (Game.game_over (Game.handle_keys f g1)) eqn:Hgo;
    cbn [negb] in Hstep.
  - injection Hstep as <- _. exact F2.
  - pose proof (update_field f _ rng1 I2 Hgo F2) as F3.
    destruct (Game.update math_sin f (Game.handle_keys f g1) rng1)
      as [g3 rng3].
    injection Hstep as <- _. exact F3.
Qed.

Lemma reachable_field (g : Game.t) (rng : Random.t) :
  Game.reachable math_sin g rng -> field_inv g.
Proof.
  induction 1 as [n rng0 g rng Hinit | f g rng g' rng' Hr IH _ Hstep].
  - exact (init_field _ _ _ _ Hinit).
  - exact (run_frame_field f g rng g' rng'
             (reachable_inv math_sin g rng Hr) IH Hstep).
Qed.

End FieldSession.

(** The effect of collecting one coin on score and enemies, for reuse. *)
Lemma enemy_spawn_on_score_interval_aux
    (coin : Coin.t) (g : Game.t) (rng : Random.t) :
  let old := Player.score (Game.player g) in
  let new := old + Coin.value coin in
  let g' := fst (Game.collect_coin coin g rng) in
  Player.score (Game.player g') = new /\
  (old / 500 < new / 500 ->
   Z.of_nat (length (Game.enemies g)) < 10 ->
   exists x, 0 <= x <= WIDTH /\
     Game.enemies g' = Game.enemies g ++ [Enemy.init x (HEIGHT - 80)]) /\
  (new / 500 <= old / 500 -> Game.enemies g' = Game.enemies g) /\
  (10 <= Z.of_nat (length (Game.enemies g)) ->
   Game.enemies g' = Game.enemies g).
Proof.
  intros old new g'. subst g'. unfold Game.collect_coin.
  unfold ENEMY_SPAWN_SCORE_INTERVAL, MAX_ENEMIES. cbn [Game.player
    Game.with_player Player.score Player.with_score Game.enemies].
  fold old. fold new. replace (new - Coin.value coin) with old by (subst new; lia).
  destruct (Z.gtb_spec (new / 500) (old / 500)) as [Hcross | Hsame];
    destruct (Z.ltb_spec (Z.of_nat (length (Game.enemies g))) 10)
      as [Hroom | Hfull];
    unfold bind, ret; cbn.
  - split; [reflexivity |]. split; [| split; intros; lia].
    intros _ _. exists (fst (Random.randint 0 WIDTH rng)).
    split; [apply randint_range; unfold WIDTH; lia |].
    unfold Random.randint, Random.raw. reflexivity.
  - split; [reflexivity |]. split; [intros; lia |]. split; reflexivity.
  - split; [reflexivity |]. split; [intros; lia |]. split; reflexivity.
  - split; [reflexivity |]. split; [intros; lia |]. split; reflexivity.
Qed.

(** ** Invariants of a session *)

Section FieldProperties.

Variable math_sin : Q -> Q.


(** X8.  In every state a session reaches, every enemy is on the enemy
    row ([y = 640]), 32 by 32, moving at speed 2 in direction 1 or -1,
    and at most 2 pixels left of the screen or 2 pixels right of the
    rightmost position it can be created at. *)
Theorem enemies_stay_on_row (g : Game.t) (rng : Random.t) :
  Game.reachable math_sin g rng ->
  Forall (fun e =>
            Rect.y (Enemy.rect e) = 640 /\
            Rect.w (Enemy.rect e) = 32 /\ Rect.h (Enemy.rect e) = 32 /\
            Enemy.speed e = 2 /\
            (Enemy.direction e = 1 \/ Enemy.direction e = -1) /\
            -2 <= Rect.left (Enemy.rect e) <= WIDTH + 2)
         (Game.enemies g).
Proof.
  intros Hr.
  destruct (reachable_field math_sin g rng Hr) as [_ _ _ F4 _ _ _ _].
  revert F4. apply Forall_impl.
  intros e (Hy & Hw & Hh & Hs & Hd). unfold Rect.left.
  split; [exact Hy |]. split; [exact Hw |]. split; [exact Hh |].
  split; [exact Hs |].
  destruct Hd as [[Hd Hx] | [Hd Hx]]; (split; [tauto | lia]).
Qed.

(** X9.  In every state a session reaches, every platform is 20 high and
    80 to 150 wide, lies between [y = 194] and [y = 700], and is
    horizontally within 102 pixels of the screen: a fixed platform is
    inside it, a moving one swings at most 102 pixels around a start
    position inside it. *)
Theorem platforms_stay_near_screen (g : Game.t) (rng : Random.t) :
  Game.reachable math_sin g rng ->
  Forall (fun p =>
            Rect.h (Platform.rect p) = 20 /\
            80 <= Rect.w (Platform.rect p) <= 150 /\
            194 <= Rect.top (Platform.rect p) /\
            Rect.bottom (Platform.rect p) <= 700 /\
            -102 <= Rect.left (Platform.rect p) /\
            Rect.right (Platform.rect p) <= WIDTH + 102 /\
            (Platform.moving p = false ->
             0 <= Rect.left (Platform.rect p) /\
             Rect.right (Platform.rect p) <= WIDTH))
         (Game.platforms g).
Proof.
  intros Hr.
  destruct (reachable_field math_sin g rng Hr) as [_ F2 _ _ _ _ _ _].
  revert F2. apply Forall_impl.
  intros p (Hh & Hw & Hy & Hcase).
  unfold Rect.left, Rect.right, Rect.top, Rect.bottom, HEIGHT in *.
  split; [exact Hh |]. split; [exact Hw |]. split; [lia |].
  split; [lia |].
  destruct Hcase as [(Hm & Hx0 & Hx1) | (Hm & _ & Hs0 & Hs1 & Hd)].
  - split; [lia |]. split; [lia |]. intros _. split; assumption.
  - split; [destruct Hd as [[_ ?] | [_ ?]]; lia |].
    split; [destruct Hd as [[_ ?] | [_ ?]]; lia |].
    intros E. rewrite Hm in E. discriminate E.
Qed.

(** X10.  In every state a session reaches, every coin is worth 10, is a
    16 by 16 square, and sits where it was spawned: centred in the lower
    band of the playfield, so its rectangle lies between [y = 352] and
    [y = 628] and sticks out of the screen by at most 8 pixels on either
    side. *)
Theorem coins_stay_where_spawned (g : Game.t) (rng : Random.t) :
  Game.reachable math_sin g rng ->
  Forall (fun c =>
            Coin.value c = 10 /\
            Rect.w (Coin.rect c) = 16 /\ Rect.h (Coin.rect c) = 16 /\
            -8 <= Rect.left (Coin.rect c) /\
            Rect.right (Coin.rect c) <= WIDTH + 8 /\
            352 <= Rect.top (Coin.rect c) /\
            Rect.bottom (Coin.rect c) <= 628)
         (Game.coins g).
Proof.
  intros Hr.
  destruct (reachable_field math_sin g rng Hr) as [_ _ _ _ F5 _ _ _].
  revert F5. apply Forall_impl.
  intros c (x & y & Hx & Hy & ->).
  unfold Coin.init, Rect.set_center, Rect.of_size, Rect.left, Rect.right,
    Rect.top, Rect.bottom, WIDTH, HEIGHT in *.
  cbn -[Z.add Z.sub Z.div]. change (16 / 2) with 8.
  change (720 / 2) with 360 in Hy.
  repeat split; lia.
Qed.

(** X11.  In every state a session reaches, the player's rectangle is 32
    by 64 and inside the screen on the left, on the right and at the
    bottom. *)
Theorem player_inside_left_right_bottom (g : Game.t) (rng : Random.t) :
  Game.reachable math_sin g rng ->
  let r := Player.rect (Game.player g) in
  Rect.w r = 32 /\ Rect.h r = 64 /\
  0 <= Rect.left r /\ Rect.right r <= WIDTH /\ Rect.bottom r <= HEIGHT.
Proof.
  intros Hr.
  destruct (reachable_field math_sin g rng Hr) as [_ _ _ _ _ F6 _ _].
  exact F6.
Qed.

(** X12.  In every state a session reaches, the session is in GameOver
    exactly when the player's health is 0. *)
Theorem game_over_iff_no_health (g : Game.t) (rng : Random.t) :
  Game.reachable math_sin g rng ->
  (Game.game_over g = true <-> Player.health (Game.player g) = 0).
Proof.
  intros Hr.
  destruct (reachable_field math_sin g rng Hr) as [_ _ _ _ _ _ _ F8].
  destruct (reachable_inv math_sin g rng Hr) as [_ _ I3 _ _ _].
  split; [exact F8 |].
  intros Hz. destruct (Game.game_over g); [reflexivity |].
  specialize (I3 eq_refl). lia.
Qed.

(** X13.  In every state a session reaches the score is a multiple of
    10; so collecting a coin there spawns an enemy exactly when the new
    score is a multiple of 500 and fewer than 10 enemies exist. *)
Theorem enemy_spawn_at_multiples_of_500
    (g : Game.t) (rng : Random.t) (c : Coin.t) (rng1 : Random.t) :
  Game.reachable math_sin g rng ->
  Coin.value c = 10 ->
  let g' := fst (Game.collect_coin c g rng1) in
  Player.score (Game.player g) mod 10 = 0 /\
  Player.score (Game.player g') = Player.score (Game.player g) + 10 /\
  (length (Game.enemies g') = S (length (Game.enemies g)) <->
   Player.score (Game.player g') mod 500 = 0 /\
   (length (Game.enemies g) < 10)%nat) /\
  (length (Game.enemies g') <> S (length (Game.enemies g)) ->
   Game.enemies g' = Game.enemies g).
Proof.
  intros Hr Hv g'.
  destruct (reachable_field math_sin g rng Hr) as [_ _ _ _ _ _ F7 _].
  destruct (enemy_spawn_on_score_interval_aux c g rng1)
    as (Hs & Hspawn & Hsame & Hfull).
  fold g' in Hs, Hspawn, Hsame, Hfull. rewrite Hv in *.
  set (s := Player.score (Game.player g)) in *.
  assert (Hcross : s / 500 < (s + 10) / 500 <-> (s + 10) mod 500 = 0).
  { pose proof (Z.div_mod s 500 ltac:(lia)) as D1.
    pose proof (Z.mod_pos_bound s 500 ltac:(lia)) as B1.
    pose proof (Z.div_mod (s + 10) 500 ltac:(lia)) as D2.
    pose proof (Z.mod_pos_bound (s + 10) 500 ltac:(lia)) as B2.
    pose proof (Z.div_mod s 10 ltac:(lia)) as D3.
    assert (E : s mod 500 = 10 * (s / 10 - 50 * (s / 500))) by lia.
    lia. }
  split; [exact F7 |]. split; [exact Hs |]. rewrite Hs.
  destruct (Z_lt_le_dec (s / 500) ((s + 10) / 500)) as [Hc | Hnc];
    destruct (Z_lt_le_dec (Z.of_nat (length (Game.enemies g))) 10)
      as [Hroom | Hno].
  - destruct (Hspawn Hc Hroom) as (x & _ & He). rewrite He, length_app.
    cbn [length]. split; [| intros Hne; exfalso; apply Hne; lia].
    split; [intros _; split; [apply Hcross, Hc | lia] | intros _; lia].
  - rewrite (Hfull Hno). split; [| reflexivity].
    split; [intros E; lia | intros [_ E]; lia].
  - rewrite (Hsame Hnc). split; [| reflexivity].
    split; [intros E; lia |].
    intros [E _]. apply Hcross in E. lia.
  - rewrite (Hsame Hnc). split; [| reflexivity].
    split; [intros E; lia | intros [_ E]; lia].
Qed.

End FieldProperties.


Lemma enemies_stay_on_row_witness :
  Forall (fun e => Rect.y (Enemy.rect e) = 640 /\
                   -2 <= Rect.left (Enemy.rect e) <= WIDTH + 2)
         (Game.enemies sample_game_over).
Proof.
  pose proof (enemies_stay_on_row sample_sin sample_game_over
                sample_game_over_rng
                (sample_game_over_reachable sample_sin)) as H.
  revert H. apply Forall_impl.
  intros e (Hy & _ & _ & _ & _ & Hx). split; [exact Hy | exact Hx].
Defined.

Lemma platforms_stay_near_screen_witness :
  Forall (fun p => -102 <= Rect.left (Platform.rect p) /\
                   Rect.right (Platform.rect p) <= WIDTH + 102)
         (Game.platforms sample_game_over).
Proof.
  pose proof (platforms_stay_near_screen sample_sin sample_game_over
                sample_game_over_rng
                (sample_game_over_reachable sample_sin)) as H.
  revert H. apply Forall_impl.
  intros p (_ & _ & _ & _ & Hl & Hr & _). split; [exact Hl | exact Hr].
Defined.

(** A session one frame old, read at a clock of 5 seconds: the first coin
    has been spawned. *)
Lemma coins_stay_where_spawned_witness :
  exists g rng,
    Game.reachable sample_sin g rng /\
    length (Game.coins g) = 1%nat /\
    Forall (fun c => Coin.value c = 10 /\ 352 <= Rect.top (Coin.rect c))
           (Game.coins g).
Proof.
  destruct (Game.init 5 (Random.mk sample_stream 0)) as [[g0 rng0] |] eqn:H0;
    [| vm_compute in H0; discriminate H0].
  destruct (Game.run_frame sample_sin (mkFrame [] false false 5000 5000)
              g0 rng0) as [[g rng] |] eqn:Hstep.
  - assert (Hreach : Game.reachable sample_sin g rng).
    { apply (Game.reach_frame sample_sin
               (mkFrame [] false false 5000 5000) g0 rng0 g rng);
        [exact (Game.reach_init sample_sin 5 _ g0 rng0 H0) | | exact Hstep].
      vm_compute in H0. injection H0 as <- _. reflexivity. }
    exists g, rng. split; [exact Hreach |]. split.
    + vm_compute in H0. injection H0 as <- <-.
      vm_compute in Hstep. injection Hstep as <- _. reflexivity.
    + pose proof (coins_stay_where_spawned sample_sin g rng Hreach) as H.
      revert H. apply Forall_impl.
      intros c (Hv & _ & _ & _ & _ & Ht & _). split; [exact Hv | exact Ht].
  - vm_compute in H0. injection H0 as <- <-.
    vm_compute in Hstep. discriminate Hstep.
Defined.

Lemma player_inside_left_right_bottom_witness :
  Rect.bottom (Player.rect (Game.player sample_game_over)) <= HEIGHT.
Proof.
  apply (player_inside_left_right_bottom sample_sin sample_game_over
           sample_game_over_rng).
  apply sample_game_over_reachable.
Defined.

Lemma game_over_iff_no_health_witness :
  Game.game_over sample_game_over = true <->
  Player.health (Game.player sample_game_over) = 0.
Proof.
  apply (game_over_iff_no_health sample_sin sample_game_over
           sample_game_over_rng).
  apply sample_game_over_reachable.
Defined.

Lemma enemy_spawn_at_multiples_of_500_witness :
  let g' := fst (Game.collect_coin (Coin.init 300 400) sample_game_over
                                   sample_rng) in
  Player.score (Game.player g') = 10 /\
  Game.enemies g' = Game.enemies sample_game_over.
Proof.
  destruct (enemy_spawn_at_multiples_of_500 sample_sin sample_game_over
              sample_game_over_rng (Coin.init 300 400) sample_rng)
    as (_ & Hs & _ & Hsame).
  - apply sample_game_over_reachable.
  - reflexivity.
  - cbv zeta. split; [exact Hs |]. apply Hsame.
    vm_compute. discriminate.
Defined.

(** ** Spawning and powerups *)

Lemma spawn_coin_early (now : Z) (g : Game.t) (rng : Random.t) :
  now - Game.last_coin_spawn g <= COIN_SPAWN_RATE ->
  Game.spawn_coin now g rng = (g, rng).
Proof.
  intros Hearly. unfold Game.spawn_coin.
  destruct (Z.gtb_spec (now - Game.last_coin_spawn g) COIN_SPAWN_RATE);
    [lia | reflexivity].
Qed.

Lemma spawn_coin_late (now : Z) (g : Game.t) (rng : Random.t) :
  COIN_SPAWN_RATE < now - Game.last_coin_spawn g ->
  exists x y (ps : list HealthPowerup.t),
    0 <= x <= WIDTH /\ 360 <= y <= 620 /\
    (ps = Game.powerups g \/
     ps = Game.powerups g ++ [HealthPowerup.init (x + 40) y]) /\
    fst (Game.spawn_coin now g rng)
    = Game.mk (Game.running g) (Game.game_over g) now (Game.num_platforms g)
              (Game.player g) (Game.platforms g)
              (Game.coins g ++ [Coin.init x y]) (Game.enemies g) ps.
Proof.
  intros Hlate. unfold Game.spawn_coin, bind, ret.
  destruct (Z.gtb_spec (now - Game.last_coin_spawn g) COIN_SPAWN_RATE);
    [| lia].
  pose proof (randint_range 0 WIDTH rng ltac:(unfold WIDTH; lia)) as Hx.
  destruct (Random.randint 0 WIDTH rng) as [x r1]. cbn [fst] in Hx.
  pose proof (randint_range (HEIGHT / 2) (HEIGHT - 100) r1
                ltac:(vm_compute; discriminate)) as Hy.
  destruct (Random.randint (HEIGHT / 2) (HEIGHT - 100) r1) as [y r2].
  cbn [fst] in Hy. change (HEIGHT / 2) with 360 in Hy.
  change (HEIGHT - 100) with 620 in Hy.
  destruct (Random.random r2) as [c r3].
  destruct (Qltb c HEALTH_POWERUP_CHANCE).
  - exists x, y, (Game.powerups g ++ [HealthPowerup.init (x + 40) y]).
    split; [exact Hx |]. split; [exact Hy |]. split; [now right |].
    reflexivity.
  - exists x, y, (Game.powerups g).
    split; [exact Hx |]. split; [exact Hy |]. split; [now left |].
    reflexivity.
Qed.

(** X14.  [spawn_coin] does nothing, and draws nothing, until more than
    3000 ms have passed since the last spawn.  Past that it records the
    time and appends exactly one coin, centred at [x] in [0, WIDTH] and
    [y] in [360, 620], together with at most one powerup, 40 pixels to
    the right of the coin; the player, platforms, enemies and flags are
    untouched.  After a spawn, no call within the next 3000 ms spawns
    again. *)
Theorem spawn_coin_gate (now : Z) (g : Game.t) (rng : Random.t) :
  let g' := fst (Game.spawn_coin now g rng) in
  (now - Game.last_coin_spawn g <= COIN_SPAWN_RATE ->
   Game.spawn_coin now g rng = (g, rng)) /\
  (COIN_SPAWN_RATE < now - Game.last_coin_spawn g ->
   Game.last_coin_spawn g' = now /\
   (exists x y,
      0 <= x <= WIDTH /\ 360 <= y <= 620 /\
      Game.coins g' = Game.coins g ++ [Coin.init x y] /\
      (Game.powerups g' = Game.powerups g \/
       Game.powerups g'
         = Game.powerups g ++ [HealthPowerup.init (x + 40) y])) /\
   Game.player g' = Game.player g /\
   Game.platforms g' = Game.platforms g /\
   Game.enemies g' = Game.enemies g /\
   Game.game_over g' = Game.game_over g /\
   Game.running g' = Game.running g /\
   forall now' rng',
     now' - now <= COIN_SPAWN_RATE ->
     Game.spawn_coin now' g' rng' = (g', rng')).
Proof.
  intros g'. split; [apply spawn_coin_early |].
  intros Hlate.
  destruct (spawn_coin_late now g rng Hlate)
    as (x & y & ps & Hx & Hy & Hps & Hg').
  fold g' in Hg'. rewrite Hg'.
  cbn [Game.last_coin_spawn Game.coins Game.powerups Game.player
       Game.platforms Game.enemies Game.game_over Game.running].
  split; [reflexivity |].
  split; [exists x, y; repeat split; try tauto; try lia |].
  repeat (split; [reflexivity |]).
  intros now' rng' Hnow'. apply spawn_coin_early. exact Hnow'.
Qed.

Lemma spawn_coin_gate_witness :
  Game.spawn_coin 3000 sample_coins sample_rng = (sample_coins, sample_rng) /\
  length (Game.coins (fst (Game.spawn_coin 3001 sample_coins sample_rng)))
    = 4%nat.
Proof.
  destruct (spawn_coin_gate 3000 sample_coins sample_rng) as [Hearly _].
  destruct (spawn_coin_gate 3001 sample_coins sample_rng) as [_ Hlate].
  split.
  - apply Hearly. vm_compute. discriminate.
  - destruct Hlate as (_ & (x & y & _ & _ & Hc & _) & _);
      [reflexivity |].
    rewrite Hc, length_app. reflexivity.
Defined.

Lemma heal_loop_closed_form (hits : list HealthPowerup.t) :
  forall g : Game.t,
  Player.health
    (Game.player (fold_left (fun g _ => Game.heal g) hits (Game.heal g)))
  = Z.min 100 (Player.health (Game.player g)
               + 30 * Z.of_nat (S (length hits))).
Proof.
  induction hits as [| h hits IH]; intros g; cbn [fold_left].
  - cbn [Game.heal Game.player Game.with_player Player.health
         Player.with_health length]. lia.
  - rewrite IH.
    cbn [Game.heal Game.player Game.with_player Player.health
         Player.with_health length]. lia.
Qed.

(** X15.  The powerup pass removes exactly the powerups that overlap the
    player and heals 30 per powerup taken, capped at 100: with [k >= 1]
    powerups taken, health becomes [min(100, health + 30 k)]; with none,
    nothing changes.  Score, position, enemies and coins are untouched. *)
Theorem powerups_heal_capped (g : Game.t) :
  let me := Player.rect (Game.player g) in
  let hits := spritecollide HealthPowerup.rect me (Game.powerups g) in
  let g' := Game.collide_powerups g in
  Game.powerups g' = survivors HealthPowerup.rect me (Game.powerups g) /\
  (hits = [] -> Game.player g' = Game.player g) /\
  (hits <> [] ->
   Player.health (Game.player g')
   = Z.min 100 (Player.health (Game.player g)
                + 30 * Z.of_nat (length hits))) /\
  Player.score (Game.player g') = Player.score (Game.player g) /\
  Player.rect (Game.player g') = me /\
  Game.enemies g' = Game.enemies g /\
  Game.coins g' = Game.coins g.
Proof.
  intros me hits g'.
  destruct (collide_powerups_spec g) as (_ & Hs & Hr & _ & _ & Hc & He).
  fold g' in Hs, Hr, Hc, He.
  assert (Hp : Game.powerups g'
               = survivors HealthPowerup.rect me (Game.powerups g)).
  { subst g'. unfold Game.collide_powerups. fold me. fold hits.
    destruct (heal_loop hits
                (Game.with_powerups
                   (survivors HealthPowerup.rect me (Game.powerups g)) g))
      as (_ & _ & _ & _ & _ & _ & _ & H).
    exact H. }
  split; [exact Hp |]. split; [| split].
  - intros Hnil. subst g'. unfold Game.collide_powerups. fold me. fold hits.
    rewrite Hnil. reflexivity.
  - intros Hne. subst g'. unfold Game.collide_powerups. fold me. fold hits.
    destruct hits as [| h rest]; [congruence |].
    cbn [fold_left]. rewrite heal_loop_closed_form. reflexivity.
  - repeat split; assumption.
Qed.

Lemma powerups_heal_capped_witness :
  let g' := Game.collide_powerups sample_powerups in
  Player.health (Game.player g') = 100 /\
  Game.powerups g' = [HealthPowerup.init 900 400].
Proof.
  destruct (powerups_heal_capped sample_powerups) as (Hp & _ & Hh & _).
  cbv zeta. rewrite Hp, Hh.
  - split; reflexivity.
  - vm_compute. discriminate.
Defined.

(** ** The text entry of the prompt *)

Lemma list_ascii_of_string_append (s t : string) :
  list_ascii_of_string (String.append s t)
  = list_ascii_of_string s ++ list_ascii_of_string t.
Proof. induction s as [| c s IH]; cbn; [reflexivity | now rewrite IH]. Qed.

(** X17.  In the active text box, backspace undoes the character just
    typed, whatever the text was; on an empty text it does nothing; and
    while the box is inactive, key presses change nothing at all. *)
Theorem backspace_undoes_typing (s : Prompt.t) (c : ascii) (key : PromptKey) :
  (Prompt.active s = true ->
   Prompt.on_queue [P_KEYDOWN (K_text (String c EmptyString));
                    P_KEYDOWN K_BACKSPACE] s = Some s) /\
  (Prompt.active s = true -> Prompt.text s = EmptyString ->
   Prompt.on_event (P_KEYDOWN K_BACKSPACE) s = Some s) /\
  (Prompt.active s = false ->
   Prompt.on_event (P_KEYDOWN key) s = Some s).
Proof.
  destruct s as [a t d]. cbn [Prompt.active Prompt.text].
  split; [| split].
  - intros ->. cbn. unfold Prompt.drop_last.
    rewrite list_ascii_of_string_append. cbn [list_ascii_of_string].
    rewrite removelast_last, string_of_list_ascii_of_string. reflexivity.
  - intros -> ->. reflexivity.
  - intros ->. reflexivity.
Qed.

Lemma backspace_undoes_typing_witness :
  Prompt.on_queue [P_KEYDOWN (K_text "7"); P_KEYDOWN K_BACKSPACE]
                  (Prompt.mk true "12" false)
  = Some (Prompt.mk true "12" false) /\
  Prompt.on_event (P_KEYDOWN (K_text "7")) Prompt.init = Some Prompt.init.
Proof.
  split.
  - apply (proj1 (backspace_undoes_typing (Prompt.mk true "12" false)
                    "7"%char K_RETURN)).
    reflexivity.
  - apply (proj2 (proj2 (backspace_undoes_typing Prompt.init "7"%char
                           (K_text "7")))).
    reflexivity.
Defined.

Lemma prompt_event_trace (ev : PromptEvent) (s s' : Prompt.t) :
  Prompt.on_event ev s = Some s' ->
  (Prompt.active s' = true ->
   Prompt.active s = true \/ ev = P_MOUSEBUTTONDOWN true) /\
  (Prompt.done s' = true ->
   Prompt.done s = true \/
   (ev = P_KEYDOWN K_RETURN /\ Prompt.active s = true)).
Proof.
  destruct s as [a t d].
  destruct ev as [| [|] | [| | u] |]; cbn; try discriminate;
    try (destruct a; cbn); intros H; injection H as <-; cbn;
    split; intros E; auto; try discriminate.
Qed.

Lemma prompt_queue_trace (q : list PromptEvent) :
  forall s s' : Prompt.t,
  Prompt.on_queue q s = Some s' ->
  (Prompt.active s' = true ->
   Prompt.active s = true \/ In (P_MOUSEBUTTONDOWN true) q) /\
  (Prompt.done s' = true ->
   Prompt.done s = true \/
   (In (P_KEYDOWN K_RETURN) q /\
    (Prompt.active s = true \/ In (P_MOUSEBUTTONDOWN true) q))).
Proof.
  induction q as [| ev q IH]; intros s s' Hq; cbn [Prompt.on_queue] in Hq.
  - injection Hq as <-. split; intros E; now left.
  - destruct (Prompt.on_event ev s) as [s1 |] eqn:Hev; [| discriminate].
    destruct (prompt_event_trace ev s s1 Hev) as [A1 D1].
    destruct (IH s1 s' Hq) as [A2 D2].
    split.
    + intros E. destruct (A2 E) as [Ha | Hin].
      * destruct (A1 Ha) as [H | ->]; [now left | right; now left].
      * right. now right.
    + intros E. destruct (D2 E) as [Hd | [Hret Hact]].
      * destruct (D1 Hd) as [H | [-> Ha]]; [now left |].
        right. split; [now left | now left].
      * right. split; [now right |].
        destruct Hact as [Ha | Hin]; [| right; now right].
        destruct (A1 Ha) as [H | ->]; [now left | right; now left].
Qed.

Lemma prompt_loop_trace (queues : list (list PromptEvent)) :
  forall (s : Prompt.t) (text : string),
  Prompt.loop queues s = Returned text ->
  Prompt.done s = true \/
  (In (P_KEYDOWN K_RETURN) (concat queues) /\
   (Prompt.active s = true \/
    In (P_MOUSEBUTTONDOWN true) (concat queues))).
Proof.
  induction queues as [| q queues IH]; intros s text Hloop;
    cbn [Prompt.loop] in Hloop.
  - destruct (Prompt.done s); [now left | discriminate].
  - destruct (Prompt.done s) eqn:Hd; [now left |].
    destruct (Prompt.on_queue q s) as [s1 |] eqn:Hq; [| discriminate].
    destruct (prompt_queue_trace q s s1 Hq) as [A1 D1].
    right. cbn [concat].
    destruct (IH s1 text Hloop) as [Hd1 | [Hret Hact]].
    + destruct (D1 Hd1) as [E | [Hret Hact]]; [congruence |].
      split; [apply in_or_app; now left |].
      destruct Hact as [Ha | Hin]; [now left |].
      right. apply in_or_app. now left.
    + split; [apply in_or_app; now right |].
      destruct Hact as [Ha | Hin]; [| right; apply in_or_app; now right].
      destruct (A1 Ha) as [H | Hin]; [now left |].
      right. apply in_or_app. now left.
Qed.

(** X18.  The prompt returns a count only if the box was clicked and
    RETURN was pressed: without a mouse click inside the box, or without
    a RETURN key, [get_platform_count] never returns, whatever is typed.
    When it does return, the count is between 1 and 15. *)
Theorem prompt_returns_only_after_click_and_return
    (queues : list (list PromptEvent)) (k : Z) :
  get_platform_count queues = Returned k ->
  In (P_MOUSEBUTTONDOWN true) (concat queues) /\
  In (P_KEYDOWN K_RETURN) (concat queues) /\
  1 <= k <= MAX_PLATFORMS.
Proof.
  unfold get_platform_count. intros Hret.
  destruct (Prompt.loop queues Prompt.init) as [text | |] eqn:Hloop;
    try discriminate.
  injection Hret as <-.
  destruct (prompt_loop_trace queues Prompt.init text Hloop)
    as [Hd | [Hr [Ha | Hc]]]; try discriminate.
  split; [exact Hc |]. split; [exact Hr |].
  apply platform_count_of_text_range.
Qed.

Lemma prompt_returns_only_after_click_and_return_witness :
  In (P_MOUSEBUTTONDOWN true) (concat sample_typing_20) /\
  In (P_KEYDOWN K_RETURN) (concat sample_typing_20).
Proof.
  destruct (prompt_returns_only_after_click_and_return sample_typing_20 15)
    as (Hc & Hr & _).
  - reflexivity.
  - split; [exact Hc | exact Hr].
Defined.

(** ** The loop as a whole *)

Lemma handle_queue_app (evs rest : list Event) :
  forall (g : Game.t) (rng : Random.t),
  Game.handle_queue (evs ++ rest) g rng
  = match Game.handle_queue evs g rng with
    | Some (g1, rng1) => Game.handle_queue rest g1 rng1
    | None => None
    end.
Proof.
  induction evs as [| ev evs IH]; intros g rng; cbn [app Game.handle_queue].
  - reflexivity.
  - destruct (Game.handle_event ev g rng) as [[g1 rng1] |];
      [apply IH | reflexivity].
Qed.

(** X20.  In GameOver, an R key-down makes the rest of the queue run on
    a freshly built session, whatever the events before it in the same
    queue did: in particular a QUIT that precedes the R is cancelled,
    because the constructor sets [running] again. *)
Theorem restart_discards_earlier_events
    (evs rest : list Event) (g : Game.t) (rng : Random.t) :
  Game.game_over g = true ->
  ~ In (KEYDOWN K_r) evs ->
  Game.handle_queue (evs ++ KEYDOWN K_r :: rest) g rng
  = match Game.init (Game.num_platforms g) rng with
    | Some (g0, rng0) => Game.handle_queue rest g0 rng0
    | None => None
    end.
Proof.
  intros Hgo Hno. rewrite handle_queue_app.
  destruct (handle_queue_keeps evs g rng) as (g1 & H1 & Hs).
  { intros [_ Hin]. exact (Hno Hin). }
  rewrite H1. destruct Hs as (_ & _ & _ & Hgo1 & _ & Hn1 & _).
  cbn [Game.handle_queue Game.handle_event].
  rewrite Hgo1, Hgo, Hn1. reflexivity.
Qed.

Lemma restart_discards_earlier_events_witness :
  option_map (fun s => Game.running (fst s))
    (Game.handle_queue [QUIT; KEYDOWN K_r] sample_game_over
                       sample_game_over_rng)
  = Some true.
Proof.
  change [QUIT; KEYDOWN K_r] with ([QUIT] ++ KEYDOWN K_r :: []).
  rewrite (restart_discards_earlier_events [QUIT] [] sample_game_over
             sample_game_over_rng).
  - vm_compute. reflexivity.
  - reflexivity.
  - intros [H | H]; [discriminate H | exact H].
Defined.

Lemma handle_event_running (ev : Event) (g : Game.t) (rng : Random.t)
    (g' : Game.t) (rng' : Random.t) :
  ~ (Game.game_over g = true /\ ev = KEYDOWN K_r) ->
  Game.handle_event ev g rng = Some (g', rng') ->
  Game.game_over g' = Game.game_over g /\
  (ev = QUIT \/ Game.running g = false -> Game.running g' = false).
Proof.
  intros Hno Hev.
  destruct ev as [| [| | | |] |]; cbn in Hev;
    try (injection Hev as <- _; cbn; split; [reflexivity |];
         intros [E | E]; (discriminate E || exact E || reflexivity)).
  destruct (Game.game_over g) eqn:Hgo.
  - exfalso. apply Hno. split; reflexivity.
  - injection Hev as <- _. split; [exact Hgo |].
    intros [E | E]; [discriminate E | exact E].
Qed.

Lemma handle_queue_running (evs : list Event) :
  forall (g : Game.t) (rng : Random.t) (g' : Game.t) (rng' : Random.t),
  ~ (Game.game_over g = true /\ In (KEYDOWN K_r) evs) ->
  Game.handle_queue evs g rng = Some (g', rng') ->
  In QUIT evs \/ Game.running g = false -> Game.running g' = false.
Proof.
  induction evs as [| ev evs IH]; intros g rng g' rng' Hno Hq Hquit;
    cbn [Game.handle_queue] in Hq.
  - injection Hq as <- _. destruct Hquit as [[] | E]. exact E.
  - destruct (Game.handle_event ev g rng) as [[g1 rng1] |] eqn:Hev;
      [| discriminate].
    destruct (handle_event_running ev g rng g1 rng1) as [Hgo Hrun];
      [intros [E ->]; apply Hno; split; [exact E | now left] | exact Hev |].
    apply (IH g1 rng1 g' rng'); [| exact Hq |].
    + rewrite Hgo. intros [E Hin]. apply Hno. split; [exact E | now right].
    + destruct Hquit as [[-> | Hin] | E].
      * right. apply Hrun. now left.
      * now left.
      * right. apply Hrun. now right.
Qed.

Lemma collect_coin_running (c : Coin.t) (g : Game.t) (rng : Random.t) :
  Game.running (fst (Game.collect_coin c g rng)) = Game.running g.
Proof.
  unfold Game.collect_coin, bind, ret, Random.randint, Random.raw.
  cbn -[Z.div Z.add Z.sub Z.modulo]. case_ifs; reflexivity.
Qed.

Lemma heal_loop_running (hits : list HealthPowerup.t) :
  forall g : Game.t,
  Game.running (fold_left (fun g _ => Game.heal g) hits g) = Game.running g.
Proof.
  induction hits as [| h hits IH]; intros g; cbn [fold_left];
    [reflexivity | now rewrite IH].
Qed.

Lemma handle_collisions_running (g : Game.t) (rng : Random.t) :
  Game.running (fst (Game.handle_collisions g rng)) = Game.running g.
Proof.
  rewrite handle_collisions_passes.
  assert (H1 : Game.running (Game.collide_platforms g) = Game.running g).
  { unfold Game.collide_platforms.
    destruct (spritecollide _ _ _); [| destruct (Qgtb _ _)]; reflexivity. }
  assert (H2 : forall g0 r0,
             Game.running (fst (Game.collide_coins g0 r0)) = Game.running g0).
  { intros g0 r0. unfold Game.collide_coins.
    apply (for_each_invariant (fun s => Game.running s = Game.running g0)).
    - intros c s r _ Hs. now rewrite collect_coin_running.
    - reflexivity. }
  assert (H3 : forall g0,
             Game.running (Game.collide_powerups g0) = Game.running g0).
  { intros g0. unfold Game.collide_powerups. now rewrite heal_loop_running. }
  assert (H4 : forall g0,
             Game.running (Game.collide_enemies g0) = Game.running g0).
  { intros g0. unfold Game.collide_enemies.
    destruct (spritecollide _ _ _); [reflexivity |].
    destruct (_ <=? 0); reflexivity. }
  now rewrite H4, H3, H2, H1.
Qed.

Section WholeLoop.

Variable math_sin : Q -> Q.

Lemma update_running (f : Frame) (g : Game.t) (rng : Random.t) :
  Game.running (fst (Game.update math_sin f g rng)) = Game.running g.
Proof.
  unfold Game.update, bind.
  assert (H1 : Game.running (fst (Game.spawn_coin (ticks_spawn f) g rng))
               = Game.running g).
  { destruct (Z_le_gt_dec (ticks_spawn f - Game.last_coin_spawn g)
                          COIN_SPAWN_RATE) as [Hle | Hgt].
    - now rewrite (spawn_coin_early _ _ _ Hle).
    - destruct (spawn_coin_late (ticks_spawn f) g rng)
        as (x & y & ps & _ & _ & _ & Hg'); [lia |].
      rewrite Hg'. reflexivity. }
  destruct (Game.spawn_coin (ticks_spawn f) g rng) as [g1 rng1].
  cbn [fst] in H1. rewrite handle_collisions_running. exact H1.
Qed.

(** X21.  A QUIT event ends the loop after the frame it arrives in: that
    frame is still carried out to its end, it leaves [running] cleared
    (unless the same queue restarts the session), and [run] performs no
    frame after it. *)
Theorem quit_ends_the_loop
    (f : Frame) (frames : list Frame) (g : Game.t) (rng : Random.t)
    (g' : Game.t) (rng' : Random.t) :
  In QUIT (events f) ->
  ~ restarts f g ->
  Game.run_frame math_sin f g rng = Some (g', rng') ->
  Game.running g' = false /\
  Game.run math_sin frames g' rng' = Some (g', rng').
Proof.
  intros Hquit Hno Hstep.
  assert (Hrun : Game.running g' = false).
  { unfold Game.run_frame, Game.handle_events in Hstep.
    destruct (Game.handle_queue (events f) g rng) as [[g1 rng1] |] eqn:Hq;
      [| discriminate].
    pose proof (handle_queue_running (events f) g rng g1 rng1 Hno Hq
                  (or_introl Hquit)) as H1.
    assert (H2 : Game.running (Game.handle_keys f g1) = false).
    { unfold Game.handle_keys. cbn. exact H1. }
    destruct (Game.game_over (Game.handle_keys f g1)); cbn [negb] in Hstep.
    - injection Hstep as <- _. exact H2.
    - pose proof (update_running f (Game.handle_keys f g1) rng1) as H3.
      destruct (Game.update math_sin f (Game.handle_keys f g1) rng1)
        as [g3 rng3].
      injection Hstep as <- _. cbn [fst] in H3. congruence. }
  split; [exact Hrun |].
  destruct frames as [| f' frames']; cbn [Game.run]; [reflexivity |].
  rewrite Hrun. reflexivity.
Qed.

End WholeLoop.

Lemma quit_ends_the_loop_witness :
  exists g' rng',
    Game.run_frame sample_sin (mkFrame [QUIT] false false 0 0)
                   sample_coins sample_rng = Some (g', rng') /\
    Game.running g' = false /\
    Player.score (Game.player g') = 20 /\
    Game.run sample_sin [idle_frame; idle_frame] g' rng' = Some (g', rng').
Proof.
  destruct (Game.run_frame sample_sin (mkFrame [QUIT] false false 0 0)
              sample_coins sample_rng) as [[g' rng'] |] eqn:Hstep;
    [| vm_compute in Hstep; discriminate Hstep].
  destruct (quit_ends_the_loop sample_sin (mkFrame [QUIT] false false 0 0)
              [idle_frame; idle_frame] sample_coins sample_rng g' rng')
    as [Hrun Hstop].
  - left. reflexivity.
  - intros [Hgo _]. discriminate Hgo.
  - exact Hstep.
  - exists g', rng'. split; [reflexivity |]. split; [exact Hrun |].
    split; [| exact Hstop].
    vm_compute in Hstep. injection Hstep as <- _. reflexivity.
Defined.

Lemma get_platform_count_range
    (queues : list (list PromptEvent)) (k : Z) :
  get_platform_count queues = Returned k -> 1 <= k <= MAX_PLATFORMS.
Proof.
  unfold get_platform_count. intros Hret.
  destruct (Prompt.loop queues Prompt.init) as [text | |]; try discriminate.
  injection Hret as <-. apply platform_count_of_text_range.
Qed.

Lemma handle_event_num_platforms (ev : Event) (g : Game.t) (rng : Random.t)
    (g' : Game.t) (rng' : Random.t) :
  session_inv g ->
  Game.handle_event ev g rng = Some (g', rng') ->
  Game.num_platforms g' = Game.num_platforms g.
Proof.
  intros Hinv Hev.
  destruct (Bool.bool_dec (Game.game_over g) true) as [Hgo | Hgo].
  - destruct ev as [| [| | | |] |].
    3: { cbn in Hev. rewrite Hgo in Hev.
         destruct (inv_num_platforms _ Hinv) as [Hnz Hle].
         destruct (init_spec (Game.num_platforms g) rng)
           as (g0 & r0 & H0 & Hn & _); [lia |].
         rewrite H0 in Hev. injection Hev as <- _. rewrite Hn. lia. }
    all: match type of Hev with
         | Game.handle_event ?e ?g0 ?r0 = _ =>
             destruct (handle_event_keeps e g0 r0) as (g1 & H1 & Hs);
             [intros [_ E]; discriminate E |];
             rewrite H1 in Hev; injection Hev as <- _;
             destruct Hs as (_ & _ & _ & _ & _ & Hn & _); exact Hn
         end.
  - destruct (handle_event_keeps ev g rng) as (g1 & H1 & Hs).
    { intros [E _]. contradiction. }
    rewrite H1 in Hev. injection Hev as <- _.
    destruct Hs as (_ & _ & _ & _ & _ & Hn & _). exact Hn.
Qed.

Lemma handle_queue_num_platforms (evs : list Event) :
  forall (g : Game.t) (rng : Random.t) (g' : Game.t) (rng' : Random.t),
  session_inv g ->
  Game.handle_queue evs g rng = Some (g', rng') ->
  Game.num_platforms g' = Game.num_platforms g.
Proof.
  induction evs as [| ev evs IH]; intros g rng g' rng' Hinv Hq;
    cbn [Game.handle_queue] in Hq.
  - injection Hq as <- _. reflexivity.
  - destruct (Game.handle_event ev g rng) as [[g1 rng1] |] eqn:Hev;
      [| discriminate].
    destruct (handle_event_inv ev g rng Hinv) as (g2 & r2 & H2 & I2).
    rewrite Hev in H2. injection H2 as <- <-.
    rewrite (IH g1 rng1 g' rng' I2 Hq).
    exact (handle_event_num_platforms ev g rng g1 rng1 Hinv Hev).
Qed.

Section Program.

Variable math_sin : Q -> Q.

Lemma run_frame_num_platforms (f : Frame) (g : Game.t) (rng : Random.t)
    (g' : Game.t) (rng' : Random.t) :
  session_inv g ->
  Game.run_frame math_sin f g rng = Some (g', rng') ->
  Game.num_platforms g' = Game.num_platforms g.
Proof.
  intros Hinv Hstep. unfold Game.run_frame, Game.handle_events in Hstep.
  destruct (Game.handle_queue (events f) g rng) as [[g1 rng1] |] eqn:Hq;
    [| discriminate].
  pose proof (handle_queue_num_platforms _ _ _ _ _ Hinv Hq) as Hn1.
  pose proof (handle_queue_session _ _ _ _ _ Hinv Hq) as I1.
  pose proof (same_simulation_inv _ _ (handle_keys_keeps f g1) I1) as I2.
  destruct (Game.game_over (Game.handle_keys f g1)) eqn:Hgo;
    cbn [negb] in Hstep.
  - injection Hstep as <- _. exact Hn1.
  - unfold Game.update, bind in Hstep.
    pose proof (spawn_coin_scores_only (ticks_spawn f)
                  (Game.handle_keys f g1) rng1) as S1.
    destruct (Game.spawn_coin (ticks_spawn f) (Game.handle_keys f g1) rng1)
      as [g2 rng2]. cbn [fst] in S1.
    pose proof (update_sprites_scores_only math_sin (ticks_player f) g2)
      as S2.
    pose proof (scores_only_trans _ _ _ S1 S2) as S.
    pose proof (scores_only_inv _ _ S I2) as I3.
    assert (Hgo3 : Game.game_over
                     (Game.update_sprites math_sin (ticks_player f) g2)
                   = false).
    { destruct S as (_ & _ & G & _). congruence. }
    set (g3 := Game.update_sprites math_sin (ticks_player f) g2) in *.
    assert (Hn : Game.num_platforms (fst (Game.handle_collisions g3 rng2))
                 = Game.num_platforms g3).
    { rewrite handle_collisions_passes.
      destruct (collide_platforms_scores_only g3) as (T1 & _ & _).
      pose proof (collide_coins_scores_only (Game.collide_platforms g3) rng2
                    (inv_coins _ (scores_only_inv _ _ T1 I3))) as T2.
      destruct (collide_powerups_spec
                  (fst (Game.collide_coins (Game.collide_platforms g3) rng2)))
        as (_ & _ & _ & _ & P5 & _).
      destruct (collide_enemies_spec
                  (Game.collide_powerups
                     (fst (Game.collide_coins (Game.collide_platforms g3)
                                              rng2))))
        as (_ & E2 & _).
      destruct T1 as (_ & _ & _ & N1 & _), T2 as (_ & _ & _ & N2 & _).
      congruence. }
    destruct (Game.handle_collisions g3 rng2) as [g4 rng4].
    injection Hstep as <- _. cbn [fst] in Hn.
    destruct S as (_ & _ & _ & N & _).
    assert (Hk : Game.num_platforms (Game.handle_keys f g1)
                 = Game.num_platforms g1) by reflexivity.
    congruence.
Qed.

Lemma run_total (frames : list Frame) :
  forall (g : Game.t) (rng : Random.t),
  Game.reachable math_sin g rng ->
  exists g' rng',
    Game.run math_sin frames g rng = Some (g', rng') /\
    Game.reachable math_sin g' rng' /\
    Game.num_platforms g' = Game.num_platforms g.
Proof.
  induction frames as [| f frames IH]; intros g rng Hr; cbn [Game.run].
  - exists g, rng. repeat split; assumption.
  - destruct (Game.running g) eqn:Hrun.
    + pose proof (reachable_inv math_sin g rng Hr) as Hinv.
      destruct (run_frame_inv math_sin f g rng Hinv)
        as (g1 & rng1 & H1 & _).
      rewrite H1.
      pose proof (Game.reach_frame math_sin f g rng g1 rng1 Hr Hrun H1)
        as Hr1.
      destruct (IH g1 rng1 Hr1) as (g' & rng' & H' & Hr' & Hn').
      exists g', rng'. split; [exact H' |]. split; [exact Hr' |].
      rewrite Hn'. exact (run_frame_num_platforms f g rng g1 rng1 Hinv H1).
    + exists g, rng. repeat split; assumption.
Qed.

(** X19.  The program never raises: whenever the prompt returns, its
    count [k] is between 1 and 15, the constructor succeeds on it, and
    the loop carries out every frame it is given without error.  The
    session it ends in still has [k] as its platform count, and [k]
    platforms, however often it was restarted. *)
Theorem main_never_raises
    (queues : list (list PromptEvent)) (frames : list Frame)
    (rng : Random.t) (r : option (Game.t * Random.t)) :
  main math_sin queues frames rng = Returned r ->
  exists k g rng',
    get_platform_count queues = Returned k /\
    1 <= k <= MAX_PLATFORMS /\
    r = Some (g, rng') /\
    Game.reachable math_sin g rng' /\
    Game.num_platforms g = k /\
    length (Game.platforms g) = Z.to_nat k.
Proof.
  unfold main. intros Hmain.
  destruct (get_platform_count queues) as [k | |] eqn:Hk; try discriminate.
  injection Hmain as <-.
  pose proof (get_platform_count_range queues k Hk) as Hrange.
  destruct (init_spec k rng) as (g0 & rng0 & H0 & Hn0 & _);
    [unfold MAX_PLATFORMS in *; lia |].
  rewrite H0.
  pose proof (Game.reach_init math_sin k rng g0 rng0 H0) as Hr0.
  destruct (run_total frames g0 rng0 Hr0) as (g & rng' & Hrun & Hr & Hn).
  exists k, g, rng'. split; [reflexivity |]. split; [exact Hrange |].
  split; [exact Hrun |]. split; [exact Hr |].
  assert (Hnk : Game.num_platforms g = k).
  { rewrite Hn, Hn0. unfold MAX_PLATFORMS in *. lia. }
  split; [exact Hnk |].
  rewrite <- Hnk. exact (fi_platform_count _ (reachable_field math_sin g rng' Hr)).
Qed.

(** X22.  In every state a session reaches, the heads-up display shows a
    non-negative score and a green health bar that starts where the red
    one does, is as high, and is between 0 and 100 wide, so that it never
    overflows the red bar; it is empty exactly in GameOver. *)
Theorem health_bar_fits (g : Game.t) (rng : Random.t) :
  Game.reachable math_sin g rng ->
  exists score width,
    draw_hud g = [ScoreText score WHITE 10 10;
                  FilledRect RED (Rect.mk 10 40 100 20);
                  FilledRect GREEN (Rect.mk 10 40 width 20)] /\
    0 <= score /\
    0 <= width <= 100 /\
    (width = 0 <-> Game.game_over g = true).
Proof.
  intros Hr.
  exists (Player.score (Game.player g)), (Player.health (Game.player g)).
  split; [reflexivity |].
  destruct (reachable_inv math_sin g rng Hr) as [I1 _ I3 I4 _ _].
  destruct (reachable_field math_sin g rng Hr) as [_ _ _ _ _ _ _ F8].
  split; [exact I4 |]. split; [exact I1 |].
  split; [| exact F8].
  intros Hz. destruct (Game.game_over g); [reflexivity |].
  specialize (I3 eq_refl). lia.
Qed.

End Program.

Lemma main_never_raises_witness :
  exists g rng',
    main sample_sin sample_typing_20 (repeat idle_frame 40)
         (Random.mk sample_stream 0) = Returned (Some (g, rng')) /\
    Game.num_platforms g = 15.
Proof.
  destruct (main sample_sin sample_typing_20 (repeat idle_frame 40)
              (Random.mk sample_stream 0)) as [r | |] eqn:Hmain;
    try (vm_compute in Hmain; discriminate Hmain).
  destruct (main_never_raises sample_sin sample_typing_20
              (repeat idle_frame 40) (Random.mk sample_stream 0) r Hmain)
    as (k & g & rng' & Hk & _ & -> & _ & Hn & _).
  exists g, rng'. split; [reflexivity |].
  rewrite Hn. vm_compute in Hk. injection Hk as <-. reflexivity.
Defined.

Lemma health_bar_fits_witness :
  exists width,
    nth 2 (draw_hud sample_game_over) (ScoreText 0 WHITE 0 0)
      = FilledRect GREEN (Rect.mk 10 40 width 20) /\
    0 <= width <= 100.
Proof.
  destruct (health_bar_fits sample_sin sample_game_over sample_game_over_rng)
    as (score & width & Hd & _ & Hw & _).
  - apply sample_game_over_reachable.
  - exists width. rewrite Hd. split; [reflexivity | exact Hw].
Defined.

(** ** One update of the player *)

(** X16.  One [update] of the player, wherever it was and however fast
    it moved: its rectangle keeps its size and ends inside the screen on
    the left, on the right and at the bottom (for a player no wider than
    the screen), and its health and score are untouched. *)
Theorem player_update_inside_left_right_bottom (now : Z) (p : Player.t) :
  0 <= Rect.w (Player.rect p) <= WIDTH ->
  let p' := Player.update now p in
  Rect.w (Player.rect p') = Rect.w (Player.rect p) /\
  Rect.h (Player.rect p') = Rect.h (Player.rect p) /\
  0 <= Rect.left (Player.rect p') /\
  Rect.right (Player.rect p') <= WIDTH /\
  Rect.bottom (Player.rect p') <= HEIGHT /\
  Player.health p' = Player.health p /\
  Player.score p' = Player.score p.
Proof.
  intros Hw p'.
  destruct (player_update_size now p) as [Hw' Hh'].
  destruct (player_update_keeps now p) as [Hhealth Hscore].
  destruct (update_keeps_left_right_bottom now p Hw) as (Hl & Hr & Hb).
  repeat split; assumption.
Qed.

Lemma player_update_inside_left_right_bottom_witness :
  let r := Player.rect (Player.update 0 sample_corner_player) in
  0 <= Rect.left r /\ Rect.right r <= WIDTH /\ Rect.bottom r <= HEIGHT.
Proof.
  destruct (player_update_inside_left_right_bottom 0 sample_corner_player)
    as (_ & _ & Hl & Hr & Hb & _).
  - vm_compute. split; discriminate.
  - cbv zeta. repeat split; assumption.
Defined.
